(** * generateComponents.cjs: model-name normalisation and schema translation

    A shallow embedding of [packages/core/bin/generateComponents.cjs] and
    the properties of its two core functions, [parseModelName] and
    [parseModelSchemaToRecs], together with the batch run that calls them.

    Strings are sequences of code units; the development covers the code
    units below 128 (Cairo identifiers, scalar type names and the generated
    text are ASCII), the range on which the case maps and the white space
    test of ECMAScript are the ones written here. *)

From Stdlib Require Import Strings.String Strings.Ascii Lists.List ZArith Bool.
Import ListNotations.

Open Scope list_scope.
Open Scope string_scope.

(** ** Characters *)

Definition code (c : ascii) : nat := nat_of_ascii c.

Definition between (lo hi n : nat) : bool := (lo <=? n)%nat && (n <=? hi)%nat.

(** White space and line terminators that [parseInt] skips
    (TAB, LF, VT, FF, CR, SP). *)
Definition isWhiteSpace (c : ascii) : bool :=
  between 9 13 (code c) || (code c =? 32)%nat.

Definition isDigit (c : ascii) : bool := between 48 57 (code c).
Definition isLower (c : ascii) : bool := between 97 122 (code c).
Definition isUpper (c : ascii) : bool := between 65 90 (code c).

(** Value of a character as a digit, in any radix up to 36. *)
Definition digitValue (c : ascii) : option Z :=
  if isDigit c then Some (Z.of_nat (code c - 48))
  else if isLower c then Some (Z.of_nat (code c - 87))
  else if isUpper c then Some (Z.of_nat (code c - 55))
  else None.

Definition radixDigit (R : Z) (c : ascii) : option Z :=
  match digitValue c with
  | Some d => if (d <? R)%Z then Some d else None
  | None => None
  end.

Definition upperChar (c : ascii) : ascii :=
  if isLower c then ascii_of_nat (code c - 32) else c.

Definition lowerChar (c : ascii) : ascii :=
  if isUpper c then ascii_of_nat (code c + 32) else c.

(** ** The String methods the program calls *)

Fixpoint mapString (f : ascii -> ascii) (s : string) : string :=
  match s with
  | EmptyString => EmptyString
  | String c r => String (f c) (mapString f r)
  end.

Definition toUpperCase : string -> string := mapString upperChar.
Definition toLowerCase : string -> string := mapString lowerChar.

(** [s.charAt(0)]: the first code unit as a string, or the empty string. *)
Definition charAt0 (s : string) : string :=
  match s with
  | EmptyString => EmptyString
  | String c _ => String c EmptyString
  end.

(** [s.slice(1)] *)
Definition slice1 (s : string) : string :=
  match s with
  | EmptyString => EmptyString
  | String _ r => r
  end.

(** [s.split(sep)] for a non-empty separator: the pieces between the
    successive occurrences of [sep], scanned from the left.  [skip] counts
    the code units of a matched separator that remain to be passed over,
    [cur] is the piece being read. *)
Fixpoint splitFrom (sep : string) (skip : nat) (cur s : string) : list string :=
  match s with
  | EmptyString => [cur]
  | String c r =>
      match skip with
      | S k => splitFrom sep k cur r
      | O =>
          if prefix sep s
          then cur :: splitFrom sep (String.length sep - 1) EmptyString r
          else splitFrom sep O (cur ++ String c EmptyString) r
      end
  end.

Definition split (s sep : string) : list string := splitFrom sep 0 EmptyString s.

(** [parts.join("")] on an array of strings. *)
Definition joinEmpty (parts : list string) : string :=
  fold_right append EmptyString parts.

(** [arr.pop()] on the array returned by [split], which is never empty. *)
Definition pop (parts : list string) : string := last parts EmptyString.

(** ** Numbers: [parseInt] and [isNaN] *)

(** The number [parseInt] returns, before rounding to a double: rounding
    never turns an integer into NaN, and the program only tests for NaN. *)
Inductive number : Type :=
| NaN
| Num (z : Z).

Definition isNaN (n : number) : bool :=
  match n with
  | NaN => true
  | Num _ => false
  end.

Fixpoint trimStart (s : string) : string :=
  match s with
  | EmptyString => EmptyString
  | String c r => if isWhiteSpace c then trimStart r else s
  end.

(** The value of the longest prefix of [s] made of radix-[R] digits, read
    after the digits already accumulated in [acc]. *)
Fixpoint digitsFrom (R : Z) (acc : option Z) (s : string) : option Z :=
  match s with
  | EmptyString => acc
  | String c r =>
      match radixDigit R c with
      | None => acc
      | Some d =>
          digitsFrom R (Some (match acc with Some a => a * R + d | None => d end)%Z) r
      end
  end.

(** An optional sign in front of the digits. *)
Definition stripSign (s : string) : Z * string :=
  match s with
  | String c r =>
      if Ascii.eqb c "-" then ((-1)%Z, r)
      else if Ascii.eqb c "+" then (1%Z, r)
      else (1%Z, s)
  | EmptyString => (1%Z, s)
  end.

(** With no radix given, a leading [0x] or [0X] is removed and selects
    radix 16; the radix is 10 otherwise. *)
Definition stripHexPrefix (s : string) : Z * string :=
  match s with
  | String c (String x r) =>
      if Ascii.eqb c "0" && (Ascii.eqb x "x" || Ascii.eqb x "X")
      then (16%Z, r)
      else (10%Z, s)
  | _ => (10%Z, s)
  end.

(** [parseInt(s)] with no radix argument. *)
Definition parseInt (s : string) : number :=
  let (sign, s1) := stripSign (trimStart s) in
  let (R, s2) := stripHexPrefix s1 in
  match digitsFrom R None s2 with
  | None => NaN
  | Some m => Num (sign * m)
  end.

(** ** parseModelName *)

Record Model : Type := { name : string }.

(** The callback given to [.map] in [parseModelName]. *)
Definition transformPart (part : string) : string :=
  if negb (isNaN (parseInt part)) then part
  else if (String.length part <=? 3)%nat || negb (isNaN (parseInt (charAt0 part)))
       then toUpperCase part
       else toUpperCase (charAt0 part) ++ toLowerCase (slice1 part).

Definition parseModelName (model : Model) : string :=
  joinEmpty (map transformPart (split (pop (split (name model) "::")) "_")).

(** ** Values and exceptions *)

(** The JavaScript values that flow through the translator: strings,
    [undefined], and what a property read on the object literal
    [cairoToRecsType] can find on [Object.prototype] (its built-in
    functions, and the prototype object itself under [__proto__]). *)
Inductive value : Type :=
| VUndefined
| VString (s : string)
| VBuiltin (fname : string)
| VObjectPrototype.

(** [`${v}`]: the string conversion of a template literal.  The text of a
    built-in function is the one Node prints. *)
Definition toString (v : value) : string :=
  match v with
  | VUndefined => "undefined"
  | VString s => s
  | VBuiltin f => "function " ++ f ++ "() { [native code] }"
  | VObjectPrototype => "[object Object]"
  end.

(** The conversion [Array.prototype.join] applies to an element:
    [undefined] gives the empty string. *)
Definition joinElement (v : value) : string :=
  match v with
  | VUndefined => ""
  | _ => toString v
  end.

(** [strs.join(sep)] *)
Fixpoint join (sep : string) (strs : list string) : string :=
  match strs with
  | [] => ""
  | [s] => s
  | s :: rest => s ++ sep ++ join sep rest
  end.

(** [a ?? b] *)
Definition nullish (v : value) (default : value) : value :=
  match v with
  | VUndefined => default
  | _ => v
  end.

Inductive exn : Type :=
| Error (message : string)
| TypeError (message : string)
| External (text : string).

(** [`${e}`] for a caught exception; [External] carries the text of an
    exception raised outside the program (the shell, the JSON parser). *)
Definition exnToString (e : exn) : string :=
  match e with
  | Error m => "Error: " ++ m
  | TypeError m => "TypeError: " ++ m
  | External t => t
  end.

Definition UnsupportedRootSchema : exn := Error "unsupported root schema type".

(** ** Schema documents *)

(** A node [{ type, content }] of the JSON document printed by
    [sozo model schema].  The tag is kept as the string it is, and
    [content] is one of the four shapes the translator reads; nothing ties
    the tag to the shape, as nothing does in the document. *)
Inductive Schema : Type :=
| MkSchema (type : string) (content : Content)
with Content : Type :=
| ContentPrimitive (scalar_type : string)
| ContentStruct (name : string) (children : list Member)
| ContentEnum (name : string)
| ContentTuple (elems : list Schema)
with Member : Type :=
| MkMember (name : string) (member_type : Schema).

Definition schema_type (schema : Schema) : string :=
  match schema with MkSchema type _ => type end.

Definition schema_content (schema : Schema) : Content :=
  match schema with MkSchema _ content => content end.

(** [content["scalar_type"]] *)
Definition content_scalar_type (content : Content) : value :=
  match content with
  | ContentPrimitive st => VString st
  | _ => VUndefined
  end.

(** [content.name] *)
Definition content_name (content : Content) : value :=
  match content with
  | ContentStruct n _ => VString n
  | ContentEnum n => VString n
  | _ => VUndefined
  end.

(** ** The accumulators and the translation monad *)

(** The two arrays created for each model and passed down the recursion. *)
Record Acc : Type := { types : list string; customTypes : list value }.

Definition emptyAcc : Acc := {| types := []; customTypes := [] |}.

Inductive result (A : Type) : Type :=
| Return (a : A) (acc : Acc)
| Throw (e : exn).

Arguments Return {A} a acc.
Arguments Throw {A} e.

Definition M (A : Type) : Type := Acc -> result A.

Definition ret {A} (a : A) : M A := fun acc => Return a acc.

Definition throw {A} (e : exn) : M A := fun _ => Throw e.

Definition bind {A B} (m : M A) (k : A -> M B) : M B :=
  fun acc =>
    match m acc with
    | Return a acc' => k a acc'
    | Throw e => Throw e
    end.

Notation "x <- m ;; k" := (bind m (fun x => k))
  (at level 61, m at next level, right associativity).
Notation "m ;;; k" := (bind m (fun _ => k))
  (at level 61, right associativity).

(** [types.push(s)] *)
Definition push_types (s : string) : M unit :=
  fun acc => Return tt {| types := (types acc ++ [s])%list; customTypes := customTypes acc |}.

(** [customTypes.push(v)] *)
Definition push_customTypes (v : value) : M unit :=
  fun acc => Return tt {| types := types acc; customTypes := (customTypes acc ++ [v])%list |}.

Section MapM.
Context {A B : Type} (f : A -> M B).

(** [arr.map(f)] for a callback with effects: elements are visited from
    the left, and the first exception ends the traversal. *)
Fixpoint mapM (l : list A) : M (list B) :=
  match l with
  | [] => ret []
  | x :: rest =>
      y <- f x ;;
      ys <- mapM rest ;;
      ret (y :: ys)
  end.

End MapM.

(** ** The scalar table *)

Definition cairoToRecsType : list (string * string) :=
  [ ("bool", "RecsType.Boolean");
    ("u8", "RecsType.Number");
    ("u16", "RecsType.Number");
    ("u32", "RecsType.Number");
    ("u64", "RecsType.Number");
    ("usize", "RecsType.Number");
    ("u128", "RecsType.BigInt");
    ("u256", "RecsType.BigInt");
    ("felt252", "RecsType.BigInt");
    ("contractaddress", "RecsType.BigInt") ].

Fixpoint ownProperty (table : list (string * string)) (key : string) : option string :=
  match table with
  | [] => None
  | (k, v) :: rest => if k =? key then Some v else ownProperty rest key
  end.

(** The function-valued properties of [Object.prototype]. *)
Definition objectPrototypeMethods : list string :=
  [ "hasOwnProperty"; "isPrototypeOf"; "propertyIsEnumerable";
    "toLocaleString"; "toString"; "valueOf";
    "__defineGetter__"; "__defineSetter__";
    "__lookupGetter__"; "__lookupSetter__" ].

(** A property read on an object literal that misses the own properties
    continues on [Object.prototype]. *)
Definition objectPrototypeGet (key : string) : value :=
  if key =? "constructor" then VBuiltin "Object"
  else if key =? "__proto__" then VObjectPrototype
  else if existsb (String.eqb key) objectPrototypeMethods then VBuiltin key
  else VUndefined.

(** [cairoToRecsType[key]] *)
Definition cairoToRecsType_get (key : string) : value :=
  match ownProperty cairoToRecsType key with
  | Some v => VString v
  | None => objectPrototypeGet key
  end.

(** ** The translator *)

Definition parseSchemaPrimitive (content : Content) : M value :=
  match content_scalar_type content with
  | VString st =>
      let scalarType := toLowerCase st in
      push_types scalarType ;;;
      ret (nullish (cairoToRecsType_get scalarType) (VString "RecsType.String"))
  | _ => throw (TypeError "Cannot read properties of undefined (reading 'toLowerCase')")
  end.

Definition parseSchemaEnum (_schema : Content) : value := VString "RecsType.Number".

Section Recursion.
Variable parseModelSchemaToRecsImpl : Schema -> M value.

(** [parseSchemaStruct], with the recursive call left open. *)
Definition parseSchemaStructWith (content : Content) : M value :=
  match content with
  | ContentStruct _ children =>
      strs <- mapM (fun member =>
                      match member with
                      | MkMember name member_type =>
                          v <- parseModelSchemaToRecsImpl member_type ;;
                          ret (name ++ ": " ++ toString v)
                      end) children ;;
      ret (VString ("{ " ++ join ", " strs ++ " }"))
  | _ => throw (TypeError "Cannot read properties of undefined (reading 'map')")
  end.

(** [parseSchemaTuple], with the recursive call left open. *)
Definition parseSchemaTupleWith (content : Content) : M value :=
  match content with
  | ContentTuple elems =>
      vs <- mapM parseModelSchemaToRecsImpl elems ;;
      ret (VString ("[ " ++ join ", " (map joinElement vs) ++ " ]"))
  | _ => throw (TypeError "content.map is not a function")
  end.

End Recursion.

Fixpoint parseModelSchemaToRecsImpl (schema : Schema) : M value :=
  match schema with
  | MkSchema type content =>
      if type =? "primitive" then
        parseSchemaPrimitive content
      else if type =? "struct" then
        push_customTypes (content_name content) ;;;
        parseSchemaStructWith parseModelSchemaToRecsImpl content
      else if type =? "enum" then
        push_types "enum" ;;;
        push_customTypes (content_name content) ;;;
        ret (parseSchemaEnum content)
      else if type =? "tuple" then
        parseSchemaTupleWith parseModelSchemaToRecsImpl content
      else
        ret VUndefined
  end.

Definition parseSchemaStruct : Content -> M value :=
  parseSchemaStructWith parseModelSchemaToRecsImpl.

Definition parseSchemaTuple : Content -> M value :=
  parseSchemaTupleWith parseModelSchemaToRecsImpl.

Definition parseModelSchemaToRecs (schema : Schema) : M value :=
  if negb (schema_type schema =? "struct") then throw UnsupportedRootSchema
  else parseSchemaStruct (schema_content schema).

(** ** JSON.stringify on the two accumulators *)

Definition nl : string := String (ascii_of_nat 10) "".
Definition tab : string := String (ascii_of_nat 9) "".
Definition dquote : string := String (ascii_of_nat 34) "".

Definition hexChar (n : nat) : string :=
  String (ascii_of_nat (if (n <? 10)%nat then 48 + n else 87 + n)) "".

(** The escape of one code unit inside a JSON string. *)
Definition quoteJSONChar (c : ascii) : string :=
  let n := code c in
  if (n =? 8)%nat then "\b"
  else if (n =? 9)%nat then "\t"
  else if (n =? 10)%nat then "\n"
  else if (n =? 12)%nat then "\f"
  else if (n =? 13)%nat then "\r"
  else if (n =? 34)%nat then "\" ++ dquote
  else if (n =? 92)%nat then "\\"
  else if (n <? 32)%nat then "\u00" ++ hexChar (n / 16) ++ hexChar (n mod 16)
  else String c "".

Fixpoint quoteJSONBody (s : string) : string :=
  match s with
  | EmptyString => ""
  | String c r => quoteJSONChar c ++ quoteJSONBody r
  end.

Definition quoteJSONString (s : string) : string :=
  dquote ++ quoteJSONBody s ++ dquote.

(** An array element: [undefined] and functions are written [null]. *)
Definition stringifyElement (v : value) : string :=
  match v with
  | VString s => quoteJSONString s
  | VUndefined => "null"
  | VBuiltin _ => "null"
  | VObjectPrototype => "{}"
  end.

Definition stringifyArray (elems : list string) : string :=
  "[" ++ join "," elems ++ "]".

Definition stringify_types (ts : list string) : string :=
  stringifyArray (map quoteJSONString ts).

Definition stringify_customTypes (cs : list value) : string :=
  stringifyArray (map stringifyElement cs).

(** ** The run *)

(** What a run does to the outside, in order. *)
Inductive event : Type :=
| ConsoleLog (text : string)
| ConsoleError (text : string)
| WriteFile (path content : string)
| Uncaught (e : exn)
| Exit (status : Z).

Definition isWriteFile (ev : event) : bool :=
  match ev with
  | WriteFile _ _ => true
  | _ => false
  end.

Definition fileHeader : string :=
  "/* Autogenerated file. Do not edit manually. */" ++ nl ++ nl
  ++ "import { defineComponent, Type as RecsType, World } from "
  ++ dquote ++ "@dojoengine/recs" ++ dquote ++ ";" ++ nl ++ nl
  ++ "export function defineContractComponents(world: World) {" ++ nl
  ++ "  return {" ++ nl.

Definition fileFooter : string := "  };" ++ nl ++ "}" ++ nl.

(** The block appended to [fileContent] for one model. *)
Definition modelBlock (modelName recsTypeObject : string) (acc : Acc) : string :=
  tab ++ "  " ++ modelName ++ ": (() => {" ++ nl
  ++ tab ++ "    return defineComponent(" ++ nl
  ++ tab ++ "      world," ++ nl
  ++ tab ++ "      " ++ recsTypeObject ++ "," ++ nl
  ++ tab ++ "      {" ++ nl
  ++ tab ++ "        metadata: {" ++ nl
  ++ tab ++ "          name: " ++ dquote ++ modelName ++ dquote ++ "," ++ nl
  ++ tab ++ "          types: " ++ stringify_types (types acc) ++ "," ++ nl
  ++ tab ++ "          customTypes: " ++ stringify_customTypes (customTypes acc) ++ "," ++ nl
  ++ tab ++ "        }," ++ nl
  ++ tab ++ "      }" ++ nl
  ++ tab ++ "    );" ++ nl
  ++ tab ++ "  })()," ++ nl.

Definition sozoCommand (modelName rpcUrl worldAddress : string) : string :=
  "sozo model schema " ++ modelName ++ " --rpc-url " ++ rpcUrl
  ++ " --json --world " ++ worldAddress.

Definition fetchError (modelName rpcUrl : string) (e : exn) : string :=
  "error when fetching schema for model '" ++ modelName ++ "' from " ++ rpcUrl
  ++ ": " ++ exnToString e.

Definition usage : string :=
  "Usage: <MANIFEST_PATH> <OUTPUT_PATH> <RPC_URL> <WORLD_ADDRESS>".

Definition sozoMissing : string :=
  "unable to find `sozo` command. Please install using `dojoup`.".

Section Run.

(** The outside of the program: the shell behind [execSync], the JSON
    parser applied to the output of [sozo], the manifest read and parsed
    from a path, [path.resolve], and the outcome [fs.writeFile] hands to
    its callback (the text printed for the error, if any). *)
Variable execSync : string -> exn + string.
Variable JSON_parse : string -> exn + Schema.
Variable readManifest : string -> exn + list Model.
Variable path_resolve : string -> string.
Variable writeFile : string -> string -> option string.

(** The body of the [try] block for one model: the block to append, or
    the exception that reaches [catch]. *)
Definition tryModel (rpcUrl worldAddress modelName : string) : exn + string :=
  match execSync (sozoCommand modelName rpcUrl worldAddress) with
  | inl e => inl e
  | inr output =>
      match JSON_parse output with
      | inl e => inl e
      | inr schema =>
          match parseModelSchemaToRecs schema emptyAcc with
          | Throw e => inl e
          | Return recsTypeObject acc =>
              inr (modelBlock modelName (toString recsTypeObject) acc)
          end
      end
  end.

(** [manifest.models.forEach]: the final [fileContent], or the events of
    the [catch] block that ended the process. *)
Fixpoint forEachModel (rpcUrl worldAddress : string) (models : list Model)
    (fileContent : string) : list event + string :=
  match models with
  | [] => inr fileContent
  | model :: rest =>
      let modelName := parseModelName model in
      match tryModel rpcUrl worldAddress modelName with
      | inl e => inl [ConsoleError (fetchError modelName rpcUrl e); Exit 0]
      | inr block => forEachModel rpcUrl worldAddress rest (fileContent ++ block)
      end
  end.

(** The whole script, from [process.argv] to the end of the process. *)
Definition main (argv : list string) : list event :=
  if negb (List.length argv =? 6)%nat then [ConsoleLog usage; Exit 1]
  else
    let manifestPath := path_resolve (nth 2 argv "") in
    let jsFilePath := path_resolve (nth 3 argv "") in
    let rpcUrl := nth 4 argv "" in
    let worldAddress := nth 5 argv "" in
    match execSync "command -v sozo 2>/dev/null" with
    | inl _ => [ConsoleError sozoMissing; Exit 0]
    | inr _ =>
        match readManifest manifestPath with
        | inl e => [Uncaught e; Exit 1]
        | inr models =>
            match forEachModel rpcUrl worldAddress models fileHeader with
            | inl events => events
            | inr fileContent =>
                let content := fileContent ++ fileFooter in
                [ WriteFile jsFilePath content;
                  match writeFile jsFilePath content with
                  | Some err => ConsoleError ("error writing file: " ++ err)
                  | None => ConsoleLog ("Components file generated successfully: " ++ jsFilePath)
                  end;
                  Exit 0 ]
            end
        end
    end.

(** Fetching or translating the schema of a model fails with [e]: the
    [sozo] command throws, or its output is not JSON, or the translation
    of the parsed schema throws. *)
Definition failsWith (rpcUrl worldAddress : string) (model : Model) (e : exn) : Prop :=
  let command := sozoCommand (parseModelName model) rpcUrl worldAddress in
  execSync command = inl e
  \/ (exists output, execSync command = inr output /\ JSON_parse output = inl e)
  \/ (exists output schema,
        execSync command = inr output /\ JSON_parse output = inr schema
        /\ parseModelSchemaToRecs schema emptyAcc = Throw e).

End Run.

(** ** Vocabulary of the statements *)

Fixpoint allDigits (s : string) : bool :=
  match s with
  | EmptyString => true
  | String c r => isDigit c && allDigits r
  end.

Definition digitString (s : string) : bool :=
  match s with
  | EmptyString => false
  | String _ _ => allDigits s
  end.

(** A part that is an integer literal from its first to its last
    character: decimal digits, after an optional sign. *)
Definition integerLiteral (part : string) : bool :=
  match part with
  | String c r =>
      if Ascii.eqb c "-" || Ascii.eqb c "+" then digitString r else digitString part
  | EmptyString => false
  end.

Definition firstIsDigit (part : string) : bool :=
  match part with
  | String c _ => isDigit c
  | EmptyString => false
  end.

Definition isHexDigit (c : ascii) : bool :=
  isDigit c || between 97 102 (code c) || between 65 70 (code c).

(** A part that starts with [0x] or [0X] with no hexadecimal digit
    behind it. *)
Definition bareHexPrefix (part : string) : bool :=
  match part with
  | String c (String x r) =>
      Ascii.eqb c "0" && (Ascii.eqb x "x" || Ascii.eqb x "X")
      && match r with
         | String d _ => negb (isHexDigit d)
         | EmptyString => true
         end
  | _ => false
  end.

(** The parts [parseModelName] transforms: the pieces between underscores
    of the last [::] segment of the name. *)
Definition partsOf (model : Model) : list string :=
  split (pop (split (name model) "::")) "_".

Fixpoint occurs (c : ascii) (s : string) : bool :=
  match s with
  | EmptyString => false
  | String d r => Ascii.eqb d c || occurs c r
  end.

(** A part holds neither of the two separators. *)
Definition separatorFree (part : string) : bool :=
  negb (occurs "_" part) && negb (occurs ":" part).

(** What a translation leaves once the accumulators are set aside: the
    value returned, or the exception. *)
Definition outcome {A : Type} (r : result A) : exn + A :=
  match r with
  | Return a _ => inr a
  | Throw e => inl e
  end.

Definition appendAcc (acc delta : Acc) : Acc :=
  {| types := (types acc ++ types delta)%list;
     customTypes := (customTypes acc ++ customTypes delta)%list |}.

(** The result of a translation started from [acc], from the result of
    the same translation started from empty accumulators. *)
Definition extend {A : Type} (acc : Acc) (r : result A) : result A :=
  match r with
  | Return a delta => Return a (appendAcc acc delta)
  | Throw e => Throw e
  end.

Definition member_schema (member : Member) : Schema :=
  match member with MkMember _ member_type => member_type end.

(** The four kinds the translator knows. *)
Definition knownKind (type : string) : bool :=
  (type =? "primitive") || (type =? "struct") || (type =? "enum") || (type =? "tuple").

(** Every field the translator reads with [.toLowerCase()] or [.map] is
    there: a primitive has its [scalar_type], a struct its [children], a
    tuple is an array, all the way down. *)
Fixpoint translatable (schema : Schema) : bool :=
  match schema with
  | MkSchema type content =>
      if type =? "primitive" then
        match content with ContentPrimitive _ => true | _ => false end
      else if type =? "struct" then
        match content with
        | ContentStruct _ children =>
            forallb (fun member => translatable (member_schema member))
                    children
        | _ => false
        end
      else if type =? "enum" then true
      else if type =? "tuple" then
        match content with
        | ContentTuple elems => forallb translatable elems
        | _ => false
        end
      else true
  end.

(** The names of the structs and enums of a schema in depth-first
    pre-order: a struct before its children, children from the left. *)
Fixpoint customOrder (schema : Schema) : list value :=
  match schema with
  | MkSchema type content =>
      if type =? "primitive" then []
      else if type =? "struct" then
        content_name content ::
        match content with
        | ContentStruct _ children =>
            flat_map (fun member => customOrder (member_schema member))
                     children
        | _ => []
        end
      else if type =? "enum" then [content_name content]
      else if type =? "tuple" then
        match content with
        | ContentTuple elems => flat_map customOrder elems
        | _ => []
        end
      else []
  end.

(** The scalar type names of a schema (and ["enum"] for an enum) in
    depth-first order. *)
Fixpoint typesOrder (schema : Schema) : list string :=
  match schema with
  | MkSchema type content =>
      if type =? "primitive" then
        match content with
        | ContentPrimitive st => [toLowerCase st]
        | _ => []
        end
      else if type =? "struct" then
        match content with
        | ContentStruct _ children =>
            flat_map (fun member => typesOrder (member_schema member))
                     children
        | _ => []
        end
      else if type =? "enum" then ["enum"]
      else if type =? "tuple" then
        match content with
        | ContentTuple elems => flat_map typesOrder elems
        | _ => []
        end
      else []
  end.

(** ** Sample documents *)

Definition primitive (scalar_type : string) : Schema :=
  MkSchema "primitive" (ContentPrimitive scalar_type).

Definition point : Schema :=
  MkSchema "struct" (ContentStruct "Vec2" [MkMember "x" (primitive "u32"); MkMember "y" (primitive "u32")]).

(** A run on a manifest of two models, of which the node knows the first. *)
Definition sampleArgv : list string :=
  [ "node"; "generateComponents.cjs"; "manifest.json"; "components.ts";
    "http://localhost:5050"; "0x1" ].

Definition sampleManifest : list Model :=
  [ {| name := "dojo_examples::position" |}; {| name := "dojo_examples::moves" |} ].

Definition positionSchema : Schema :=
  MkSchema "struct"
    (ContentStruct "Position"
       [MkMember "player" (primitive "ContractAddress"); MkMember "vec" point]).

(** The output of [sozo] for the first model is not spelled out: the
    parser below maps the token that stands for it to the document. *)
Definition sampleExecSync (command : string) : exn + string :=
  if command =? "command -v sozo 2>/dev/null" then inr "/usr/local/bin/sozo"
  else if command =? sozoCommand "Position" "http://localhost:5050" "0x1"
       then inr "<schema of Position>"
       else inl (External ("Error: Command failed: " ++ command)).

Definition sampleJSON_parse (output : string) : exn + Schema :=
  if output =? "<schema of Position>" then inr positionSchema
  else inl (External "SyntaxError: Unexpected end of JSON input").

Definition sampleReadManifest (path : string) : exn + list Model :=
  if path =? "manifest.json" then inr sampleManifest
  else if path =? "position.json" then inr [{| name := "dojo_examples::position" |}]
  else inl (External "Error: ENOENT: no such file or directory").

Definition sampleWriteFile (path content : string) : option string := None.

(** A scalar type name keeps its meaning when its case changes; these are
    the names with an upper-case letter. *)
Fixpoint hasUpper (s : string) : bool :=
  match s with
  | EmptyString => false
  | String c r => isUpper c || hasUpper r
  end.

(** ** Predicates on computations *)

(** A computation is framed when running it from [acc] is running it from
    empty accumulators and putting [acc] in front of what it appended. *)
Definition framed {A} (m : M A) : Prop :=
  forall acc, m acc = extend acc (m emptyAcc).

(** Inside the recursion nothing but a failed property read can throw. *)
Definition typeErrorsOnly {A} (m : M A) : Prop :=
  forall acc e, m acc = Throw e -> exists message, e = TypeError message.

(** The accumulators after a node has been translated from [acc]. *)
Definition afterNode (acc : Acc) (schema : Schema) : Acc :=
  {| types := (types acc ++ typesOrder schema)%list;
     customTypes := (customTypes acc ++ customOrder schema)%list |}.

(** ** Tactics *)

(** Case analysis on the 256 characters. *)
Ltac by_cases_on_char c :=
  destruct c as [[] [] [] [] [] [] [] []]; vm_compute; intuition (eauto; congruence).

(** Case analysis on the tag of a node, in the order of the translator. *)
Ltac by_kind type :=
  destruct (type =? "primitive");
  [| destruct (type =? "struct");
     [| destruct (type =? "enum"); [| destruct (type =? "tuple")]]].

(** A node that appends at most its own entries. *)
Ltac leaf_appends acc :=
  eexists;
  unfold parseSchemaPrimitive, bind, push_types, push_customTypes, ret;
  cbn; rewrite ?app_nil_r; destruct acc; reflexivity.

(** ** Vocabulary of the further statements *)




(** What is left of a part once the white space in front and the sign
    are taken away. *)
Definition unsignedBody (part : string) : string := snd (stripSign (trimStart part)).

Fixpoint removeChar (c : ascii) (s : string) : string :=
  match s with
  | EmptyString => EmptyString
  | String d r => if Ascii.eqb d c then removeChar c r else String d (removeChar c r)
  end.

(** The piece of the name after its last [::]. *)
Definition lastSegment (model : Model) : string := pop (split (name model) "::").

Fixpoint endsWith (c : ascii) (s : string) : bool :=
  match s with
  | EmptyString => false
  | String d EmptyString => Ascii.eqb d c
  | String _ r => endsWith c r
  end.

(** The target of a scalar type name. *)
Definition scalarTarget (scalar_type : string) : value :=
  nullish (cairoToRecsType_get (toLowerCase scalar_type)) (VString "RecsType.String").

(** The type expression of a node, computed without accumulators. *)
Fixpoint expressionOf (schema : Schema) : value :=
  match schema with
  | MkSchema type content =>
      if type =? "primitive" then
        match content with
        | ContentPrimitive st => scalarTarget st
        | _ => VUndefined
        end
      else if type =? "struct" then
        match content with
        | ContentStruct _ children =>
            VString ("{ " ++ join ", " (map (fun member =>
                                               match member with
                                               | MkMember name member_type =>
                                                   name ++ ": " ++ toString (expressionOf member_type)
                                               end) children) ++ " }")
        | _ => VUndefined
        end
      else if type =? "enum" then VString "RecsType.Number"
      else if type =? "tuple" then
        match content with
        | ContentTuple elems =>
            VString ("[ " ++ join ", " (map (fun elem => joinElement (expressionOf elem)) elems)
                     ++ " ]")
        | _ => VUndefined
        end
      else VUndefined
  end.

Definition noUpper (s : string) : bool := negb (hasUpper s).

(** The same document with every struct and enum name sent through [f]. *)
Fixpoint renameTypes (f : string -> string) (schema : Schema) : Schema :=
  match schema with
  | MkSchema type content =>
      MkSchema type
        match content with
        | ContentPrimitive st => ContentPrimitive st
        | ContentStruct n children =>
            ContentStruct (f n)
              (map (fun member =>
                      match member with
                      | MkMember name member_type => MkMember name (renameTypes f member_type)
                      end) children)
        | ContentEnum n => ContentEnum (f n)
        | ContentTuple elems => ContentTuple (map (renameTypes f) elems)
        end
  end.


Section RunVocabulary.

Variable execSync : string -> exn + string.
Variable JSON_parse : string -> exn + Schema.

(** The model is fetched and translated, and [block] is the text
    generated for it. *)
Definition blockFor (rpcUrl worldAddress : string) (model : Model) (block : string) : Prop :=
  exists output schema recsTypeObject acc,
    execSync (sozoCommand (parseModelName model) rpcUrl worldAddress) = inr output
    /\ JSON_parse output = inr schema
    /\ parseModelSchemaToRecs schema emptyAcc = Return recsTypeObject acc
    /\ block = modelBlock (parseModelName model) (toString recsTypeObject) acc.

End RunVocabulary.


(** A tuple node whose elements are primitives. *)
Definition tupleOfPrimitives (scalar_types : list string) : Schema :=
  MkSchema "tuple" (ContentTuple (map primitive scalar_types)).

(** A node that returns its expression and appends at most its own entries. *)
Ltac leaf_returns acc :=
  unfold parseSchemaPrimitive, scalarTarget, bind, push_types, push_customTypes, ret;
  cbn; rewrite ?app_nil_r; destruct acc; reflexivity.

(** * Properties *)

(** ** The normaliser on sample names *)

Example parseModelName_player_health :
  parseModelName {| name := "ns::player_health" |} = "PlayerHealth".
Proof. reflexivity. Qed.

Example parseModelName_u128_balance :
  parseModelName {| name := "u128_balance" |} = "U128Balance".
Proof. reflexivity. Qed.

Example split_on_colons : split "a:::b::" "::" = ["a"; ":b"; ""].
Proof. reflexivity. Qed.

Example parseInt_samples :
  map parseInt ["123"; "  -42px"; "0x1F"; "0x"; "0xyz"; "+"; ""; "health"]
  = [Num 123; Num (-42); Num 31; NaN; NaN; NaN; NaN; NaN].
Proof. reflexivity. Qed.

(** ** Characters and parseInt *)

Lemma digit_not_space (c : ascii) : isDigit c = true -> isWhiteSpace c = false.
Proof. by_cases_on_char c. Qed.

Lemma digit_not_sign (c : ascii) :
  isDigit c = true -> Ascii.eqb c "-" = false /\ Ascii.eqb c "+" = false.
Proof. by_cases_on_char c. Qed.

Lemma digit_radix10 (c : ascii) :
  isDigit c = true -> exists d, radixDigit 10 c = Some d.
Proof. by_cases_on_char c. Qed.

Lemma digit_not_x (c : ascii) :
  isDigit c = true -> Ascii.eqb c "x" || Ascii.eqb c "X" = false.
Proof. by_cases_on_char c. Qed.

Lemma hexDigit_radix16 (c : ascii) :
  isHexDigit c = true -> exists d, radixDigit 16 c = Some d.
Proof. by_cases_on_char c. Qed.

Lemma not_hexDigit_radix16 (c : ascii) :
  isHexDigit c = false -> radixDigit 16 c = None.
Proof. by_cases_on_char c. Qed.

Lemma digitsFrom_started (R : Z) (s : string) (a : Z) :
  exists m, digitsFrom R (Some a) s = Some m.
Proof.
  revert a; induction s as [|c r IH]; intros a; simpl.
  - eauto.
  - destruct (radixDigit R c); eauto.
Qed.

(** [isNaN(parseInt(s))] in terms of the text that is left once leading
    white space, the sign and the hexadecimal prefix are removed. *)
Lemma isNaN_parseInt (s : string) :
  isNaN (parseInt s) =
  let (R, s2) := stripHexPrefix (snd (stripSign (trimStart s))) in
  match s2 with
  | EmptyString => true
  | String c _ => match radixDigit R c with None => true | Some _ => false end
  end.
Proof.
  unfold parseInt.
  destruct (stripSign (trimStart s)) as [sign s1]; simpl.
  destruct (stripHexPrefix s1) as [R s2].
  destruct s2 as [|c r]; simpl; [reflexivity|].
  destruct (radixDigit R c) as [d|]; [|reflexivity].
  destruct (digitsFrom_started R r d) as [m ->]. reflexivity.
Qed.

(** A string made of one character parses to a number exactly when that
    character is a digit. *)
Lemma isNaN_parseInt_charAt0 (part : string) :
  isNaN (parseInt (charAt0 part)) = negb (firstIsDigit part).
Proof.
  destruct part as [|c r]; [reflexivity|].
  simpl. clear r. by_cases_on_char c.
Qed.

(** For a part that starts with a digit, [parseInt] gives NaN only when
    the part is a bare hexadecimal prefix. *)
Lemma isNaN_parseInt_digit_first (part : string) :
  firstIsDigit part = true -> isNaN (parseInt part) = bareHexPrefix part.
Proof.
  destruct part as [|c r]; [discriminate|]. simpl; intros Hc.
  rewrite isNaN_parseInt. simpl trimStart.
  rewrite (digit_not_space _ Hc).
  destruct (digit_not_sign _ Hc) as [Hm Hp].
  unfold stripSign. rewrite Hm, Hp. simpl snd.
  unfold stripHexPrefix, bareHexPrefix.
  destruct r as [|x r'].
  - destruct (digit_radix10 _ Hc) as [d ->]. reflexivity.
  - destruct (Ascii.eqb c "0" && (Ascii.eqb x "x" || Ascii.eqb x "X")) eqn:E; simpl.
    + destruct r' as [|d r'']; [reflexivity|].
      destruct (isHexDigit d) eqn:Hd.
      * destruct (hexDigit_radix16 _ Hd) as [v ->]. reflexivity.
      * rewrite (not_hexDigit_radix16 _ Hd). reflexivity.
    + destruct (digit_radix10 _ Hc) as [d ->]. reflexivity.
Qed.

Lemma bareHexPrefix_firstIsDigit (part : string) :
  bareHexPrefix part = true -> firstIsDigit part = true.
Proof.
  destruct part as [|c [|x r]]; simpl; try discriminate.
  intros H. apply andb_prop in H as [H _]. apply andb_prop in H as [H _].
  apply Ascii.eqb_eq in H. subst c. reflexivity.
Qed.

(** ** split on names without separators *)

Lemma append_assoc (a b c : string) : (a ++ b) ++ c = a ++ (b ++ c).
Proof. induction a as [|x a IH]; simpl; [reflexivity | now rewrite IH]. Qed.

Lemma append_empty_r (a : string) : a ++ "" = a.
Proof. induction a as [|x a IH]; simpl; [reflexivity | now rewrite IH]. Qed.

Lemma prefix_first_differs (c d : ascii) (sep r : string) :
  Ascii.eqb d c = false -> prefix (String c sep) (String d r) = false.
Proof.
  intros H; simpl. destruct (ascii_dec c d) as [->|]; [|reflexivity].
  now rewrite Ascii.eqb_refl in H.
Qed.

(** A string in which the first character of the separator does not occur
    is returned whole. *)
Lemma splitFrom_absent (c : ascii) (sep s cur : string) :
  occurs c s = false -> splitFrom (String c sep) 0 cur s = [cur ++ s].
Proof.
  revert cur; induction s as [|d r IH]; intros cur H.
  - simpl. now rewrite append_empty_r.
  - simpl in H. apply orb_false_elim in H as [Hd Hr].
    cbn [splitFrom]. rewrite (prefix_first_differs _ _ _ _ Hd).
    rewrite (IH _ Hr), append_assoc. reflexivity.
Qed.

Lemma split_absent (c : ascii) (sep s : string) :
  occurs c s = false -> split s (String c sep) = [s].
Proof. intros H. unfold split. now rewrite splitFrom_absent. Qed.

Lemma splitFrom_at_separator (c : ascii) (cur r : string) :
  splitFrom (String c "") 0 cur (String c r) = cur :: splitFrom (String c "") 0 "" r.
Proof.
  cbn [splitFrom]. unfold prefix.
  destruct (ascii_dec c c) as [_|N]; [|now elim N].
  destruct r; reflexivity.
Qed.

(** Splitting an underscore-joined name gives back the pieces. *)
Lemma splitFrom_join (first cur : string) (rest : list string) :
  Forall (fun p => occurs "_" p = false) (first :: rest) ->
  splitFrom "_" 0 cur (join "_" (first :: rest)) = (cur ++ first) :: rest.
Proof.
  revert first cur; induction rest as [|p rest IH]; intros first cur H.
  - inversion H; subst. simpl join. now apply splitFrom_absent.
  - inversion H as [|? ? Hf Hr]; subst.
    change (join "_" (first :: p :: rest)) with (first ++ "_" ++ join "_" (p :: rest)).
    clear H. revert cur; induction first as [|d r IHf]; intros cur.
    + rewrite append_empty_r.
      change ("" ++ "_" ++ join "_" (p :: rest)) with (String "_" (join "_" (p :: rest))).
      rewrite splitFrom_at_separator, (IH p "" Hr). reflexivity.
    + simpl in Hf. apply orb_false_elim in Hf as [Hd Hf'].
      change (String d r ++ "_" ++ join "_" (p :: rest))
        with (String d (r ++ "_" ++ join "_" (p :: rest))).
      cbn [splitFrom]. rewrite (prefix_first_differs _ _ _ _ Hd).
      rewrite (IHf Hf'), append_assoc. reflexivity.
Qed.

Lemma occurs_append (c : ascii) (a b : string) :
  occurs c (a ++ b) = occurs c a || occurs c b.
Proof. induction a as [|x a IH]; simpl; [reflexivity | now rewrite IH, orb_assoc]. Qed.

Lemma occurs_join (c : ascii) (parts : list string) :
  Ascii.eqb "_" c = false ->
  Forall (fun p => occurs c p = false) parts ->
  occurs c (join "_" parts) = false.
Proof.
  intros Hc H; induction H as [|p rest Hp Hrest IH]; [reflexivity|].
  destruct rest as [|q rest]; [exact Hp|].
  change (join "_" (p :: q :: rest)) with (p ++ "_" ++ join "_" (q :: rest)).
  rewrite occurs_append, Hp.
  change ("_" ++ join "_" (q :: rest)) with (String "_" (join "_" (q :: rest))).
  cbn [occurs orb]. rewrite Hc. exact IH.
Qed.

(** [parseModelName] on a name without namespace, given by its parts. *)
Lemma parseModelName_join (first : string) (rest : list string) :
  Forall (fun p => occurs "_" p = false) (first :: rest) ->
  Forall (fun p => occurs ":" p = false) (first :: rest) ->
  parseModelName {| name := join "_" (first :: rest) |}
  = joinEmpty (map transformPart (first :: rest)).
Proof.
  intros Hu Hc. unfold parseModelName. cbn [name].
  rewrite (split_absent ":" ":") by (apply occurs_join; [reflexivity | assumption]).
  cbn [pop last]. unfold split. rewrite splitFrom_join by assumption.
  reflexivity.
Qed.

Lemma parseModelName_single (part : string) :
  occurs "_" part = false -> occurs ":" part = false ->
  parseModelName {| name := part |} = transformPart part.
Proof.
  intros Hu Hc.
  change part with (join "_" [part]) at 1.
  rewrite parseModelName_join by (constructor; [assumption | constructor]).
  simpl. apply append_empty_r.
Qed.

Lemma joinEmpty_app (a b : list string) :
  joinEmpty (a ++ b)%list = joinEmpty a ++ joinEmpty b.
Proof.
  induction a as [|x a IH]; simpl; [reflexivity|].
  now rewrite IH, append_assoc.
Qed.

(** The output of [parseModelName], around any one of the parts. *)
Lemma parseModelName_at_part (model : Model) (before after : list string) (part : string) :
  partsOf model = (before ++ part :: after)%list ->
  parseModelName model
  = joinEmpty (map transformPart before) ++ transformPart part
    ++ joinEmpty (map transformPart after).
Proof.
  intros H. unfold parseModelName. fold (partsOf model).
  rewrite H, map_app, joinEmpty_app. reflexivity.
Qed.

(** ** Integer literals *)

Lemma allDigits_occurs (c : ascii) (s : string) :
  isDigit c = false -> allDigits s = true -> occurs c s = false.
Proof.
  intros Hc; induction s as [|d r IH]; simpl; [reflexivity|].
  intros H. apply andb_prop in H as [Hd Hr]. rewrite (IH Hr), orb_false_r.
  destruct (Ascii.eqb d c) eqn:E; [|reflexivity].
  apply Ascii.eqb_eq in E. congruence.
Qed.

Lemma digitString_allDigits (s : string) : digitString s = true -> allDigits s = true.
Proof. destruct s; [discriminate | trivial]. Qed.

Lemma integerLiteral_separatorFree (part : string) :
  integerLiteral part = true -> separatorFree part = true.
Proof.
  destruct part as [|c r]; [discriminate|]. unfold integerLiteral, separatorFree.
  destruct (Ascii.eqb c "-" || Ascii.eqb c "+") eqn:E; intros H.
  - apply digitString_allDigits in H.
    cbn [occurs].
    rewrite (allDigits_occurs "_" r eq_refl H), (allDigits_occurs ":" r eq_refl H).
    apply orb_prop in E as [E|E]; apply Ascii.eqb_eq in E; subst c; reflexivity.
  - apply digitString_allDigits in H.
    now rewrite (allDigits_occurs "_" _ eq_refl H), (allDigits_occurs ":" _ eq_refl H).
Qed.

Lemma digitString_parses (s : string) :
  digitString s = true ->
  match s with
  | EmptyString => False
  | String c _ => stripHexPrefix s = (10%Z, s) /\ exists d, radixDigit 10 c = Some d
  end.
Proof.
  destruct s as [|c r]; [discriminate|]. simpl.
  intros H. apply andb_prop in H as [Hc Hr]. split; [|now apply digit_radix10].
  destruct r as [|x r']; [reflexivity|].
  simpl in Hr. apply andb_prop in Hr as [Hx _].
  rewrite (digit_not_x _ Hx), andb_false_r. reflexivity.
Qed.

Lemma integerLiteral_parses (part : string) :
  integerLiteral part = true -> isNaN (parseInt part) = false.
Proof.
  destruct part as [|c r]; [discriminate|]. unfold integerLiteral.
  rewrite isNaN_parseInt.
  destruct (Ascii.eqb c "-" || Ascii.eqb c "+") eqn:E; intros H.
  - assert (Hs : snd (stripSign (trimStart (String c r))) = r).
    { apply orb_prop in E as [E|E]; apply Ascii.eqb_eq in E; subst c; reflexivity. }
    rewrite Hs. apply digitString_parses in H.
    destruct r as [|d r']; [contradiction|]. destruct H as [-> [v ->]]. reflexivity.
  - assert (Hc : isDigit c = true).
    { simpl in H. now apply andb_prop in H as [Hc _]. }
    destruct (digit_not_sign _ Hc) as [Hm Hp].
    simpl trimStart. rewrite (digit_not_space _ Hc).
    unfold stripSign. rewrite Hm, Hp. simpl snd.
    apply digitString_parses in H. destruct H as [-> [v ->]]. reflexivity.
Qed.

(** C6: a part that is an integer literal from end to end (such as
    ["123"]) is returned unchanged by the transformation of parts: the
    normalised name of a model named by that part alone is the part, and
    wherever the part stands among the parts of a model name, it stands
    unchanged at that place in the normalised name. *)
Theorem integer_literal_part_unchanged (part : string) :
  integerLiteral part = true ->
  transformPart part = part
  /\ parseModelName {| name := part |} = part
  /\ forall model before after,
       partsOf model = (before ++ part :: after)%list ->
       parseModelName model
       = joinEmpty (map transformPart before) ++ part
         ++ joinEmpty (map transformPart after).
Proof.
  intros H.
  assert (Ht : transformPart part = part).
  { unfold transformPart. now rewrite (integerLiteral_parses _ H). }
  pose proof (integerLiteral_separatorFree _ H) as Hs.
  split; [exact Ht | split].
  - rewrite <- Ht at 2. apply andb_prop in Hs as [Hu Hc].
    apply negb_true_iff in Hu, Hc. now apply parseModelName_single.
  - intros model before after Hparts.
    now rewrite (parseModelName_at_part _ _ _ _ Hparts), Ht.
Qed.

Lemma integer_literal_part_unchanged_witness :
  transformPart "123" = "123"
  /\ parseModelName {| name := "123" |} = "123"
  /\ parseModelName {| name := "ns::position_123_x" |} = "Position123X".
Proof.
  destruct (integer_literal_part_unchanged "123" eq_refl) as [H1 [H2 H3]].
  split; [exact H1 | split; [exact H2|]].
  exact (H3 {| name := "ns::position_123_x" |} ["position"] ["x"] eq_refl).
Defined.

(** ** Parts that start with a digit *)

(** The second test of the callback, [part.length <= 3 || !isNaN(parseInt(part.charAt(0)))],
    is reached with its digit disjunct true exactly on bare hexadecimal
    prefixes. *)
Lemma digit_test_reached (part : string) :
  isNaN (parseInt part) = true /\ isNaN (parseInt (charAt0 part)) = false
  <-> bareHexPrefix part = true.
Proof.
  rewrite isNaN_parseInt_charAt0, negb_false_iff. split.
  - intros [Hn Hd]. now rewrite <- (isNaN_parseInt_digit_first _ Hd).
  - intros Hb. pose proof (bareHexPrefix_firstIsDigit _ Hb) as Hd.
    split; [|exact Hd]. now rewrite (isNaN_parseInt_digit_first _ Hd).
Qed.

(** C9 (amended): a part whose first character is a digit is returned
    verbatim, whatever its length and its other characters, unless it is
    [0x] or [0X] with no hexadecimal digit behind; such a part makes
    [parseInt] return NaN, is the only kind of part on which the
    first-character-is-a-digit test is reached and true, and is returned
    in upper case.  The same holds of the part at its place in the
    normalised name. *)
Theorem digit_first_part_verbatim_unless_bare_hex (part : string) :
  firstIsDigit part = true ->
  let returned := if bareHexPrefix part then toUpperCase part else part in
  transformPart part = returned
  /\ (isNaN (parseInt part) = true /\ isNaN (parseInt (charAt0 part)) = false
      <-> bareHexPrefix part = true)
  /\ forall model before after,
       partsOf model = (before ++ part :: after)%list ->
       parseModelName model
       = joinEmpty (map transformPart before) ++ returned
         ++ joinEmpty (map transformPart after).
Proof.
  intros Hd returned.
  assert (Ht : transformPart part = returned).
  { unfold transformPart, returned.
    rewrite (isNaN_parseInt_digit_first _ Hd), isNaN_parseInt_charAt0, Hd.
    destruct (bareHexPrefix part); cbn [negb]; [now rewrite orb_true_r | reflexivity]. }
  split; [exact Ht | split].
  - apply digit_test_reached.
  - intros model before after Hparts.
    now rewrite (parseModelName_at_part _ _ _ _ Hparts), Ht.
Qed.

Lemma digit_first_part_verbatim_unless_bare_hex_witness :
  transformPart "128balance" = "128balance"
  /\ parseModelName {| name := "ns::token_128balance" |} = "Token128balance"
  /\ transformPart "0xyz" = "0XYZ".
Proof.
  destruct (digit_first_part_verbatim_unless_bare_hex "128balance" eq_refl)
    as [H1 [_ H3]].
  destruct (digit_first_part_verbatim_unless_bare_hex "0xyz" eq_refl) as [H4 _].
  split; [exact H1 | split; [|exact H4]].
  exact (H3 {| name := "ns::token_128balance" |} ["token"] [] eq_refl).
Defined.

(** C9 as first stated fails on ["0xyz"]: its first character is a digit,
    [parseInt] gives NaN, its length is 4, the digit test is true, and the
    part comes back in upper case. *)
Lemma digit_first_part_not_always_verbatim :
  firstIsDigit "0xyz" = true
  /\ isNaN (parseInt "0xyz") = true
  /\ (String.length "0xyz" <=? 3)%nat = false
  /\ isNaN (parseInt (charAt0 "0xyz")) = false
  /\ transformPart "0xyz" = "0XYZ"
  /\ transformPart "0xyz" <> "0xyz"
  /\ parseModelName {| name := "ns::0xyz" |} = "0XYZ".
Proof. repeat split; try reflexivity. discriminate. Qed.

(** ** Parts that are upper-cased *)

Lemma short_part_uppercased (part : string) :
  isNaN (parseInt part) = true -> (String.length part <= 3)%nat ->
  transformPart part = toUpperCase part.
Proof.
  intros Hn Hl. unfold transformPart. rewrite Hn. cbn [negb].
  apply Nat.leb_le in Hl. now rewrite Hl.
Qed.

Example transformPart_u8 : transformPart "u8" = "U8".
Proof. reflexivity. Qed.

(** C1: on ["128balance"], a part that is not an integer literal and
    whose first character is a digit, the code returns the part as it is,
    not ["128BALANCE"]: [parseInt] reads the digits in front and the first
    test keeps the part. *)
Theorem digit_first_part_not_uppercased :
  integerLiteral "128balance" = false
  /\ firstIsDigit "128balance" = true
  /\ parseInt "128balance" = Num 128
  /\ transformPart "128balance" = "128balance"
  /\ toUpperCase "128balance" = "128BALANCE"
  /\ parseModelName {| name := "ns::128balance" |} = "128balance"
  /\ integerLiteral "1a" = false
  /\ (String.length "1a" <=? 3)%nat = true
  /\ transformPart "1a" = "1a".
Proof. repeat split; reflexivity. Qed.

(** ** Induction on schema documents *)

Lemma Schema_nested_ind (P : Schema -> Prop) :
  (forall type st, P (MkSchema type (ContentPrimitive st))) ->
  (forall type n children,
      Forall (fun member => P (member_schema member)) children ->
      P (MkSchema type (ContentStruct n children))) ->
  (forall type n, P (MkSchema type (ContentEnum n))) ->
  (forall type elems, Forall P elems -> P (MkSchema type (ContentTuple elems))) ->
  forall schema, P schema.
Proof.
  intros Hprim Hstruct Henum Htuple.
  fix IH 1. intros [type [st | n children | n | elems]].
  - apply Hprim.
  - apply Hstruct. induction children as [|[mn mt] rest IHrest]; constructor.
    + apply IH.
    + exact IHrest.
  - apply Henum.
  - apply Htuple. induction elems as [|e rest IHrest]; constructor.
    + apply IH.
    + exact IHrest.
Qed.

(** ** The monad *)

Lemma appendAcc_empty_r (acc : Acc) : appendAcc acc emptyAcc = acc.
Proof. destruct acc; unfold appendAcc; simpl. now rewrite !app_nil_r. Qed.

Lemma appendAcc_assoc (a b c : Acc) :
  appendAcc (appendAcc a b) c = appendAcc a (appendAcc b c).
Proof. unfold appendAcc; simpl. now rewrite !app_assoc. Qed.

Lemma extend_extend {A} (a b : Acc) (r : result A) :
  extend a (extend b r) = extend (appendAcc a b) r.
Proof. destruct r; simpl; [now rewrite appendAcc_assoc | reflexivity]. Qed.

Lemma framed_ret {A} (a : A) : framed (ret a).
Proof. intros acc. unfold ret; simpl. now rewrite appendAcc_empty_r. Qed.

Lemma framed_throw {A} (e : exn) : framed (@throw A e).
Proof. intros acc. reflexivity. Qed.

Lemma framed_push_types (s : string) : framed (push_types s).
Proof.
  intros acc. unfold push_types, extend, appendAcc; simpl. now rewrite app_nil_r.
Qed.

Lemma framed_push_customTypes (v : value) : framed (push_customTypes v).
Proof.
  intros acc. unfold push_customTypes, extend, appendAcc; simpl. now rewrite app_nil_r.
Qed.

Lemma framed_bind {A B} (m : M A) (k : A -> M B) :
  framed m -> (forall a, framed (k a)) -> framed (bind m k).
Proof.
  intros Hm Hk acc. unfold bind. rewrite (Hm acc).
  destruct (m emptyAcc) as [a delta|e]; simpl; [|reflexivity].
  rewrite (Hk a (appendAcc acc delta)), (Hk a delta). apply eq_sym, extend_extend.
Qed.

Lemma framed_mapM {A B} (f : A -> M B) (l : list A) :
  Forall (fun x => framed (f x)) l -> framed (mapM f l).
Proof.
  induction 1 as [|x rest Hx Hrest IH]; simpl.
  - apply framed_ret.
  - apply framed_bind; [exact Hx|]. intros y.
    apply framed_bind; [exact IH|]. intros ys. apply framed_ret.
Qed.

Lemma framed_parseSchemaPrimitive (content : Content) :
  framed (parseSchemaPrimitive content).
Proof.
  unfold parseSchemaPrimitive. destruct (content_scalar_type content);
    try apply framed_throw.
  apply framed_bind; [apply framed_push_types|]. intros _. apply framed_ret.
Qed.

Lemma framed_parseModelSchemaToRecsImpl (schema : Schema) :
  framed (parseModelSchemaToRecsImpl schema).
Proof.
  induction schema as [type st | type n children IH | type n | type elems IH]
    using Schema_nested_ind; cbn [parseModelSchemaToRecsImpl];
    destruct (type =? "primitive"); try apply framed_parseSchemaPrimitive;
    destruct (type =? "struct");
    try (apply framed_bind; [apply framed_push_customTypes | intros _]);
    try apply framed_throw.
  all: try (destruct (type =? "enum");
            [ apply framed_bind; [apply framed_push_types | intros _];
              apply framed_bind; [apply framed_push_customTypes | intros _];
              apply framed_ret
            | destruct (type =? "tuple"); try apply framed_ret; try apply framed_throw ]).
  - cbn [parseSchemaStructWith].
    apply framed_bind; [|intros strs; apply framed_ret].
    apply framed_mapM. eapply Forall_impl; [|exact IH].
    intros [mn mt] Hmt; simpl in Hmt.
    apply framed_bind; [exact Hmt | intros v; apply framed_ret].
  - cbn [parseSchemaTupleWith].
    apply framed_bind; [|intros vs; apply framed_ret].
    apply framed_mapM. exact IH.
Qed.

Lemma outcome_extend {A} (acc : Acc) (r : result A) : outcome (extend acc r) = outcome r.
Proof. destruct r; reflexivity. Qed.

(** C7: the value returned by the recursive translation of a node (or
    the exception it throws) is the same whatever the two accumulators
    hold when the translation starts. *)
Theorem expression_independent_of_accumulators (schema : Schema) (acc1 acc2 : Acc) :
  outcome (parseModelSchemaToRecsImpl schema acc1)
  = outcome (parseModelSchemaToRecsImpl schema acc2).
Proof.
  rewrite (framed_parseModelSchemaToRecsImpl schema acc1),
          (framed_parseModelSchemaToRecsImpl schema acc2).
  now rewrite !outcome_extend.
Qed.

(** ** Exceptions of the translator *)

Lemma typeErrorsOnly_ret {A} (a : A) : typeErrorsOnly (ret a).
Proof. intros acc e H; discriminate. Qed.

Lemma typeErrorsOnly_bind {A B} (m : M A) (k : A -> M B) :
  typeErrorsOnly m -> (forall a, typeErrorsOnly (k a)) -> typeErrorsOnly (bind m k).
Proof.
  intros Hm Hk acc e. unfold bind.
  destruct (m acc) as [a acc'|e'] eqn:E.
  - apply Hk.
  - intros H; inversion H; subst. eapply Hm; eassumption.
Qed.

Lemma typeErrorsOnly_mapM {A B} (f : A -> M B) (l : list A) :
  Forall (fun x => typeErrorsOnly (f x)) l -> typeErrorsOnly (mapM f l).
Proof.
  induction 1 as [|x rest Hx Hrest IH]; simpl.
  - apply typeErrorsOnly_ret.
  - apply typeErrorsOnly_bind; [exact Hx|]. intros y.
    apply typeErrorsOnly_bind; [exact IH|]. intros ys. apply typeErrorsOnly_ret.
Qed.

Lemma typeErrorsOnly_push_types (s : string) : typeErrorsOnly (push_types s).
Proof. intros acc e H; discriminate. Qed.

Lemma typeErrorsOnly_push_customTypes (v : value) : typeErrorsOnly (push_customTypes v).
Proof. intros acc e H; discriminate. Qed.

Lemma typeErrorsOnly_throw {A} (message : string) :
  typeErrorsOnly (@throw A (TypeError message)).
Proof. intros acc e H; inversion H; eauto. Qed.

Lemma typeErrorsOnly_parseSchemaPrimitive (content : Content) :
  typeErrorsOnly (parseSchemaPrimitive content).
Proof.
  unfold parseSchemaPrimitive. destruct (content_scalar_type content);
    try apply typeErrorsOnly_throw.
  apply typeErrorsOnly_bind; [apply typeErrorsOnly_push_types|].
  intros _. apply typeErrorsOnly_ret.
Qed.

Lemma typeErrorsOnly_struct (content : Content) :
  (forall schema, typeErrorsOnly (parseModelSchemaToRecsImpl schema)) ->
  typeErrorsOnly (parseSchemaStruct content).
Proof.
  intros Hrec. unfold parseSchemaStruct, parseSchemaStructWith.
  destruct content; try apply typeErrorsOnly_throw.
  apply typeErrorsOnly_bind; [|intros strs; apply typeErrorsOnly_ret].
  apply typeErrorsOnly_mapM, Forall_forall. intros [mn mt] _.
  apply typeErrorsOnly_bind; [apply Hrec | intros v; apply typeErrorsOnly_ret].
Qed.

Lemma typeErrorsOnly_parseModelSchemaToRecsImpl (schema : Schema) :
  typeErrorsOnly (parseModelSchemaToRecsImpl schema).
Proof.
  induction schema as [type st | type n children IH | type n | type elems IH]
    using Schema_nested_ind; cbn [parseModelSchemaToRecsImpl];
    destruct (type =? "primitive"); try apply typeErrorsOnly_parseSchemaPrimitive;
    destruct (type =? "struct");
    try (apply typeErrorsOnly_bind; [apply typeErrorsOnly_push_customTypes | intros _]);
    try apply typeErrorsOnly_throw.
  all: try (destruct (type =? "enum");
            [ apply typeErrorsOnly_bind; [apply typeErrorsOnly_push_types | intros _];
              apply typeErrorsOnly_bind; [apply typeErrorsOnly_push_customTypes | intros _];
              apply typeErrorsOnly_ret
            | destruct (type =? "tuple");
              try apply typeErrorsOnly_ret; try apply typeErrorsOnly_throw ]).
  - cbn [parseSchemaStructWith].
    apply typeErrorsOnly_bind; [|intros strs; apply typeErrorsOnly_ret].
    apply typeErrorsOnly_mapM. eapply Forall_impl; [|exact IH].
    intros [mn mt] Hmt; simpl in Hmt.
    apply typeErrorsOnly_bind; [exact Hmt | intros v; apply typeErrorsOnly_ret].
  - cbn [parseSchemaTupleWith].
    apply typeErrorsOnly_bind; [|intros vs; apply typeErrorsOnly_ret].
    apply typeErrorsOnly_mapM. exact IH.
Qed.

(** C2: the translation of a root fails with the error
    [unsupported root schema type] exactly when the tag of the root is
    not ["struct"]; on a struct root that error is never raised. *)
Theorem unsupported_root_iff_not_struct (schema : Schema) (acc : Acc) :
  parseModelSchemaToRecs schema acc = Throw UnsupportedRootSchema
  <-> schema_type schema <> "struct".
Proof.
  unfold parseModelSchemaToRecs.
  destruct (schema_type schema =? "struct") eqn:E; cbn [negb].
  - apply String.eqb_eq in E. split; [|tauto].
    intros H. exfalso.
    destruct (typeErrorsOnly_struct (schema_content schema)
                typeErrorsOnly_parseModelSchemaToRecsImpl acc _ H) as [message Hm].
    discriminate Hm.
  - apply String.eqb_neq in E. split; [intros _; exact E | reflexivity].
Qed.

Example enum_root_unsupported (n : string) (acc : Acc) :
  parseModelSchemaToRecs (MkSchema "enum" (ContentEnum n)) acc
  = Throw (Error "unsupported root schema type").
Proof. reflexivity. Qed.

Example primitive_root_unsupported (st : string) (acc : Acc) :
  parseModelSchemaToRecs (MkSchema "primitive" (ContentPrimitive st)) acc
  = Throw (Error "unsupported root schema type").
Proof. reflexivity. Qed.

(** ** Order of the appends *)

Lemma mapM_appends {A B} (f : A -> M B)
    (dt : A -> list string) (dc : A -> list value) (l : list A) :
  Forall (fun x => forall acc, exists y,
              f x acc = Return y {| types := (types acc ++ dt x)%list;
                                    customTypes := (customTypes acc ++ dc x)%list |}) l ->
  forall acc, exists ys,
    mapM f l acc = Return ys {| types := (types acc ++ flat_map dt l)%list;
                                customTypes := (customTypes acc ++ flat_map dc l)%list |}.
Proof.
  induction 1 as [|x rest Hx Hrest IH]; intros acc.
  - exists []. simpl. unfold ret. rewrite !app_nil_r. now destruct acc.
  - destruct (Hx acc) as [y Hy].
    destruct (IH {| types := (types acc ++ dt x)%list;
                    customTypes := (customTypes acc ++ dc x)%list |}) as [ys Hys].
    exists (y :: ys). cbn [mapM]. unfold bind at 1. rewrite Hy.
    unfold bind at 1. rewrite Hys. unfold ret. cbn [types customTypes flat_map].
    now rewrite !app_assoc.
Qed.

Lemma translation_appends_in_order (schema : Schema) :
  translatable schema = true ->
  forall acc, exists v,
    parseModelSchemaToRecsImpl schema acc = Return v (afterNode acc schema).
Proof.
  unfold afterNode.
  induction schema as [type st | type n children IH | type n | type elems IH]
    using Schema_nested_ind;
    cbn [translatable typesOrder customOrder parseModelSchemaToRecsImpl];
    intros Ht acc; by_kind type;
    try discriminate Ht; try (leaf_appends acc).
  - (* a struct: its name, then its children *)
    cbn [content_name parseSchemaStructWith].
    unfold bind at 1. cbn [push_customTypes].
    rewrite forallb_forall in Ht. rewrite Forall_forall in IH.
    edestruct (mapM_appends
                 (fun member =>
                    match member with
                    | MkMember name member_type =>
                        v <- parseModelSchemaToRecsImpl member_type ;;
                        ret (name ++ ": " ++ toString v)
                    end)
                 (fun member => typesOrder (member_schema member))
                 (fun member => customOrder (member_schema member))
                 children) as [strs Hstrs].
    { apply Forall_forall. intros [mn mt] Hin acc'.
      destruct (IH _ Hin (Ht _ Hin) acc') as [v Hv]. simpl in Hv.
      eexists. unfold bind. rewrite Hv. reflexivity. }
    eexists. unfold bind. rewrite Hstrs. unfold ret. cbn [types customTypes].
    now rewrite <- app_assoc.
  - (* a tuple: its elements *)
    cbn [parseSchemaTupleWith].
    rewrite forallb_forall in Ht. rewrite Forall_forall in IH.
    edestruct (mapM_appends parseModelSchemaToRecsImpl typesOrder customOrder elems)
      as [vs Hvs].
    { apply Forall_forall. intros e Hin acc'. exact (IH _ Hin (Ht _ Hin) acc'). }
    eexists. unfold bind. rewrite Hvs. reflexivity.
Qed.

(** The documents that are not [translatable] are those on which the
    translation throws. *)
Lemma mapM_throws {A B} (f : A -> M B) (readable : A -> bool) (l : list A) :
  Forall (fun x => typeErrorsOnly (f x)) l ->
  Forall (fun x => readable x = false ->
                   forall acc, exists message, f x acc = Throw (TypeError message)) l ->
  forallb readable l = false ->
  forall acc, exists message, mapM f l acc = Throw (TypeError message).
Proof.
  induction l as [|x rest IH]; intros Hte Hthrows Hl acc; [discriminate Hl|].
  inversion Hte as [|? ? Hx Hrest]; subst.
  inversion Hthrows as [|? ? Hxt Hrestt]; subst.
  cbn [mapM forallb] in *. unfold bind at 1.
  destruct (f x acc) as [y acc'|e] eqn:E.
  - destruct (readable x) eqn:Er.
    + destruct (IH Hrest Hrestt Hl acc') as [message Hm].
      exists message. unfold bind. now rewrite Hm.
    + destruct (Hxt eq_refl acc) as [message Hm]. congruence.
  - destruct (Hx acc e E) as [message ->]. now exists message.
Qed.

Lemma untranslatable_throws (schema : Schema) :
  translatable schema = false ->
  forall acc, exists message,
    parseModelSchemaToRecsImpl schema acc = Throw (TypeError message).
Proof.
  induction schema as [type st | type n children IH | type n | type elems IH]
    using Schema_nested_ind;
    cbn [translatable parseModelSchemaToRecsImpl];
    intros Ht acc; by_kind type;
    try discriminate Ht; try (eexists; reflexivity).
  - cbn [parseSchemaStructWith]. unfold bind at 1. cbn [push_customTypes].
    edestruct (mapM_throws
                 (fun member =>
                    match member with
                    | MkMember name member_type =>
                        v <- parseModelSchemaToRecsImpl member_type ;;
                        ret (name ++ ": " ++ toString v)
                    end)
                 (fun member => translatable (member_schema member))
                 children) as [message Hm]; [| |exact Ht| ].
    + apply Forall_forall. intros [mn mt] _.
      apply typeErrorsOnly_bind;
        [apply typeErrorsOnly_parseModelSchemaToRecsImpl | intros v; apply typeErrorsOnly_ret].
    + eapply Forall_impl; [|exact IH]. intros [mn mt] Hmt Hf acc'.
      destruct (Hmt Hf acc') as [message Hm]. exists message.
      unfold bind. simpl in Hm. now rewrite Hm.
    + exists message. unfold bind. now rewrite Hm.
  - cbn [parseSchemaTupleWith].
    edestruct (mapM_throws parseModelSchemaToRecsImpl translatable elems)
      as [message Hm]; [| exact IH | exact Ht |].
    + apply Forall_forall. intros e _. apply typeErrorsOnly_parseModelSchemaToRecsImpl.
    + exists message. unfold bind. now rewrite Hm.
Qed.

Lemma translatable_iff_returns (schema : Schema) (acc : Acc) :
  translatable schema = true
  <-> exists v acc', parseModelSchemaToRecsImpl schema acc = Return v acc'.
Proof.
  split.
  - intros Ht. destruct (translation_appends_in_order schema Ht acc) as [v Hv]. eauto.
  - intros [v [acc' Hr]]. destruct (translatable schema) eqn:E; [reflexivity|].
    destruct (untranslatable_throws schema E acc) as [message Hm]. congruence.
Qed.

Lemma customOrder_nested_struct (outer inner m : string)
    (before after grandchildren : list Member) :
  customOrder
    (MkSchema "struct"
       (ContentStruct outer
          (before ++ MkMember m (MkSchema "struct" (ContentStruct inner grandchildren))
                  :: after)))
  = ([VString outer]
     ++ flat_map (fun member => customOrder (member_schema member)) before
     ++ [VString inner]
     ++ flat_map (fun member => customOrder (member_schema member)) grandchildren
     ++ flat_map (fun member => customOrder (member_schema member)) after)%list.
Proof.
  cbn [customOrder String.eqb Ascii.eqb Bool.eqb content_name].
  rewrite flat_map_app. cbn [flat_map member_schema customOrder String.eqb Ascii.eqb
                            Bool.eqb content_name app].
  reflexivity.
Qed.

(** C4: the recursive translation appends in depth-first pre-order: from
    any accumulators, a node whose fields can all be read is translated
    with the names and scalar types of its pre-order traversal appended;
    and for a struct [outer] that has a struct [inner] among its
    children, [customTypes] receives [outer] first, then what the
    children before [inner] append, then [inner], then what the children
    of [inner] append, then the rest. *)
Theorem appends_follow_preorder :
  (forall schema acc,
      translatable schema = true ->
      exists v, parseModelSchemaToRecsImpl schema acc = Return v (afterNode acc schema))
  /\ (forall outer inner m before after grandchildren acc,
        let innerNode := MkSchema "struct" (ContentStruct inner grandchildren) in
        let outerNode :=
          MkSchema "struct" (ContentStruct outer (before ++ MkMember m innerNode :: after)) in
        translatable outerNode = true ->
        exists v,
          parseModelSchemaToRecsImpl outerNode acc
          = Return v
              {| types := (types acc ++ typesOrder outerNode)%list;
                 customTypes :=
                   (customTypes acc
                    ++ [VString outer]
                    ++ flat_map (fun member => customOrder (member_schema member)) before
                    ++ [VString inner]
                    ++ flat_map (fun member => customOrder (member_schema member)) grandchildren
                    ++ flat_map (fun member => customOrder (member_schema member)) after)%list |}).
Proof.
  split.
  - intros schema acc Ht. now apply translation_appends_in_order.
  - intros outer inner m before after grandchildren acc innerNode outerNode Ht.
    destruct (translation_appends_in_order outerNode Ht acc) as [v Hv].
    exists v. rewrite Hv. unfold afterNode, outerNode, innerNode.
    now rewrite customOrder_nested_struct.
Qed.

Lemma appends_follow_preorder_witness :
  exists v,
    parseModelSchemaToRecsImpl
      (MkSchema "struct"
         (ContentStruct "Position"
            ([MkMember "player" (MkSchema "enum" (ContentEnum "Side"))]
             ++ MkMember "vec" point
             :: [MkMember "id" (primitive "felt252")])))
      emptyAcc
    = Return v
        {| types := ["enum"; "u32"; "u32"; "felt252"];
           customTypes := [VString "Position"; VString "Side"; VString "Vec2"] |}.
Proof.
  exact (proj2 appends_follow_preorder "Position" "Vec2" "vec"
           [MkMember "player" (MkSchema "enum" (ContentEnum "Side"))]
           [MkMember "id" (primitive "felt252")]
           [MkMember "x" (primitive "u32"); MkMember "y" (primitive "u32")]
           emptyAcc eq_refl).
Defined.

(** ** Primitives *)

Lemma lowerChar_not_upper (c : ascii) : isUpper (lowerChar c) = false.
Proof. by_cases_on_char c. Qed.

Lemma toLowerCase_no_upper (s : string) : hasUpper (toLowerCase s) = false.
Proof.
  induction s as [|c r IH]; [reflexivity|].
  cbn [toLowerCase mapString hasUpper]. rewrite lowerChar_not_upper. exact IH.
Qed.

(** No method of [Object.prototype] is reached under a lower-cased key. *)
Lemma lowercase_key_misses_methods (st : string) :
  existsb (String.eqb (toLowerCase st)) objectPrototypeMethods = false.
Proof.
  destruct (existsb _ _) eqn:E; [|reflexivity].
  apply existsb_exists in E as [m [Hin Heq]]. apply String.eqb_eq in Heq.
  pose proof (toLowerCase_no_upper st) as Hl. rewrite Heq in Hl.
  simpl in Hin. repeat (destruct Hin as [<-|Hin]; [discriminate Hl|]). contradiction.
Qed.

(** What the translation of a primitive returns and appends, for every
    scalar type name: the table entry of the lower-cased name, else what
    the property read finds on [Object.prototype], else the fallback. *)
Lemma primitive_translation (st : string) (acc : Acc) :
  let scalarType := toLowerCase st in
  parseModelSchemaToRecsImpl (primitive st) acc
  = Return
      match ownProperty cairoToRecsType scalarType with
      | Some target => VString target
      | None =>
          if scalarType =? "constructor" then VBuiltin "Object"
          else if scalarType =? "__proto__" then VObjectPrototype
          else VString "RecsType.String"
      end
      {| types := (types acc ++ [scalarType])%list; customTypes := customTypes acc |}.
Proof.
  intros scalarType. unfold primitive.
  cbn [parseModelSchemaToRecsImpl String.eqb Ascii.eqb Bool.eqb].
  unfold parseSchemaPrimitive, bind, push_types, ret. cbn [content_scalar_type].
  fold scalarType. f_equal. unfold cairoToRecsType_get.
  destruct (ownProperty cairoToRecsType scalarType); [reflexivity|].
  unfold objectPrototypeGet. unfold scalarType at 3.
  rewrite lowercase_key_misses_methods.
  destruct (scalarType =? "constructor"); [reflexivity|].
  destruct (scalarType =? "__proto__"); reflexivity.
Qed.

Example table_entries :
  map (fun st => outcome (parseModelSchemaToRecsImpl (primitive st) emptyAcc))
      ["bool"; "u8"; "u16"; "u32"; "u64"; "usize"; "u128"; "u256"; "felt252";
       "ContractAddress"; "unknowntype"]
  = map (fun target => inr (VString target))
      ["RecsType.Boolean"; "RecsType.Number"; "RecsType.Number"; "RecsType.Number";
       "RecsType.Number"; "RecsType.Number"; "RecsType.BigInt"; "RecsType.BigInt";
       "RecsType.BigInt"; "RecsType.BigInt"; "RecsType.String"].
Proof. reflexivity. Qed.

(** C3: the scalar type ["constructor"] is absent from the table, is
    appended to [types] as it should be, and yet is not translated to the
    fallback ["RecsType.String"]: the property read finds the function
    [Object] on the prototype of the table, and [??] lets it through. *)
Theorem inherited_key_escapes_fallback :
  ownProperty cairoToRecsType (toLowerCase "constructor") = None
  /\ parseModelSchemaToRecsImpl (primitive "constructor") emptyAcc
     = Return (VBuiltin "Object") {| types := ["constructor"]; customTypes := [] |}
  /\ outcome (parseModelSchemaToRecsImpl (primitive "constructor") emptyAcc)
     <> inr (VString "RecsType.String")
  /\ parseModelSchemaToRecs
       (MkSchema "struct" (ContentStruct "Game" [MkMember "owner" (primitive "Constructor")]))
       emptyAcc
     = Return (VString "{ owner: function Object() { [native code] } }")
         {| types := ["constructor"]; customTypes := [] |}.
Proof. repeat split; try reflexivity. discriminate. Qed.

(** ** A root with two primitive children *)

(** C5: the root struct with children [a : u8] and [b : felt252] is
    translated to [{ a: RecsType.Number, b: RecsType.BigInt }], with
    [types] equal to [["u8", "felt252"]] and [customTypes] empty: the name
    of the root, whatever it is, is not recorded. *)
Theorem root_with_two_primitives (n : string) :
  parseModelSchemaToRecs
    (MkSchema "struct"
       (ContentStruct n [MkMember "a" (primitive "u8"); MkMember "b" (primitive "felt252")]))
    emptyAcc
  = Return (VString "{ a: RecsType.Number, b: RecsType.BigInt }")
      {| types := ["u8"; "felt252"]; customTypes := [] |}.
Proof. reflexivity. Qed.

(** ** Unknown kinds *)

(** C10: a node whose tag is none of [primitive], [struct], [enum] and
    [tuple] is translated without an exception to [undefined], and both
    accumulators are left as they were; as a member of a struct it is
    written [undefined] in the text of the struct, and as an element of a
    tuple it is written as the empty string by [join]. *)
Theorem unknown_kind_returns_undefined (type : string) (content : Content) (acc : Acc) :
  knownKind type = false ->
  parseModelSchemaToRecsImpl (MkSchema type content) acc = Return VUndefined acc
  /\ (forall n m,
        parseSchemaStruct (ContentStruct n [MkMember m (MkSchema type content)]) acc
        = Return (VString ("{ " ++ m ++ ": undefined }")) acc)
  /\ parseSchemaTuple (ContentTuple [MkSchema type content]) acc
     = Return (VString "[  ]") acc.
Proof.
  unfold knownKind. intros H.
  apply orb_false_elim in H as [H Ht]. apply orb_false_elim in H as [H He].
  apply orb_false_elim in H as [Hp Hs].
  assert (Hu : parseModelSchemaToRecsImpl (MkSchema type content) acc
               = Return VUndefined acc).
  { cbn [parseModelSchemaToRecsImpl]. now rewrite Hp, Hs, He, Ht. }
  split; [exact Hu | split].
  - intros n m. unfold parseSchemaStruct, parseSchemaStructWith.
    cbn [mapM]. unfold bind. rewrite Hu. unfold ret. cbn [join toString].
    now rewrite append_assoc.
  - unfold parseSchemaTuple, parseSchemaTupleWith.
    cbn [mapM]. unfold bind. rewrite Hu. reflexivity.
Qed.

Lemma unknown_kind_returns_undefined_witness :
  parseModelSchemaToRecsImpl (MkSchema "array" (ContentTuple [primitive "u8"])) emptyAcc
  = Return VUndefined emptyAcc
  /\ parseModelSchemaToRecs
       (MkSchema "struct"
          (ContentStruct "Bag" [MkMember "items" (MkSchema "array" (ContentTuple [primitive "u8"]))]))
       emptyAcc
     = Return (VString "{ items: undefined }") emptyAcc.
Proof.
  destruct (unknown_kind_returns_undefined "array" (ContentTuple [primitive "u8"])
              emptyAcc eq_refl) as [H1 [H2 _]].
  split; [exact H1 | exact (H2 "Bag" "items")].
Defined.

(** ** The run *)

Section RunProperties.

Variable execSync : string -> exn + string.
Variable JSON_parse : string -> exn + Schema.
Variable readManifest : string -> exn + list Model.
Variable path_resolve : string -> string.
Variable writeFile : string -> string -> option string.

Lemma tryModel_fails (rpcUrl worldAddress : string) (model : Model) (e : exn) :
  tryModel execSync JSON_parse rpcUrl worldAddress (parseModelName model) = inl e
  <-> failsWith execSync JSON_parse rpcUrl worldAddress model e.
Proof.
  unfold tryModel, failsWith.
  destruct (execSync _) as [e1|output].
  { split; [intros H; left; exact H|].
    intros [H | [[o [H _]] | [o [sc [H _]]]]]; (exact H || discriminate H). }
  destruct (JSON_parse output) as [e2|schema] eqn:Ej.
  { split.
    - intros H; right; left. exists output. split; [reflexivity|].
      rewrite Ej. congruence.
    - intros [H | [[o [H1 H2]] | [o [sc [H1 [H2 _]]]]]]; try discriminate H;
        inversion H1; subst o; congruence. }
  destruct (parseModelSchemaToRecs schema emptyAcc) as [v acc|e3] eqn:Et.
  { split; [discriminate|].
    intros [H | [[o [H1 H2]] | [o [sc [H1 [H2 H3]]]]]]; try discriminate H;
      inversion H1; subst o; congruence. }
  split.
  - intros H; right; right. exists output, schema.
    repeat split; try assumption. congruence.
  - intros [H | [[o [H1 H2]] | [o [sc [H1 [H2 H3]]]]]]; try discriminate H;
      inversion H1; subst o; congruence.
Qed.

(** The loop stops at the first model that fails, with the two events of
    the [catch] block. *)
Lemma forEachModel_aborts (rpcUrl worldAddress : string) (models : list Model) :
  Exists (fun model => exists e, failsWith execSync JSON_parse rpcUrl worldAddress model e)
         models ->
  forall fileContent,
  exists before model after e,
    models = (before ++ model :: after)%list
    /\ Forall (fun m => forall e', ~ failsWith execSync JSON_parse rpcUrl worldAddress m e')
              before
    /\ failsWith execSync JSON_parse rpcUrl worldAddress model e
    /\ forEachModel execSync JSON_parse rpcUrl worldAddress models fileContent
       = inl [ConsoleError (fetchError (parseModelName model) rpcUrl e); Exit 0].
Proof.
  induction models as [|m rest IH]; intros Hex fileContent.
  - inversion Hex.
  - cbn [forEachModel].
    destruct (tryModel execSync JSON_parse rpcUrl worldAddress (parseModelName m))
      as [e|block] eqn:Em.
    + exists [], m, rest, e.
      split; [reflexivity | split; [constructor | split; [|reflexivity]]].
      apply tryModel_fails. exact Em.
    + assert (Hrest : Exists (fun model => exists e,
                                  failsWith execSync JSON_parse rpcUrl worldAddress model e)
                             rest).
      { inversion Hex as [? ? [e He]|]; subst; [|assumption].
        apply tryModel_fails in He. congruence. }
      destruct (IH Hrest (fileContent ++ block))
        as (before & model & after & e & Hm & Hb & Hf & Hr).
      exists (m :: before), model, after, e.
      split; [now rewrite Hm | split; [|split; [exact Hf | exact Hr]]].
      constructor; [|exact Hb]. intros e' He'.
      apply tryModel_fails in He'. congruence.
Qed.

(** C8: in a run that gets as far as the loop over the models (six
    arguments, [sozo] found, manifest read), if fetching or translating
    the schema fails for some model, the run consists of exactly two
    events: one line on standard error, made of the normalised name of
    the first model that fails, the endpoint and the text of the
    exception, and the end of the process with status 0.  The file is
    not written. *)
Theorem failed_model_aborts_without_output (argv : list string) (found : string)
    (models : list Model) :
  let rpcUrl := nth 4 argv "" in
  let worldAddress := nth 5 argv "" in
  let run := main execSync JSON_parse readManifest path_resolve writeFile argv in
  List.length argv = 6%nat ->
  execSync "command -v sozo 2>/dev/null" = inr found ->
  readManifest (path_resolve (nth 2 argv "")) = inr models ->
  Exists (fun model => exists e, failsWith execSync JSON_parse rpcUrl worldAddress model e)
         models ->
  exists before model after e,
    models = (before ++ model :: after)%list
    /\ Forall (fun m => forall e', ~ failsWith execSync JSON_parse rpcUrl worldAddress m e')
              before
    /\ failsWith execSync JSON_parse rpcUrl worldAddress model e
    /\ run
       = [ ConsoleError
             ("error when fetching schema for model '" ++ parseModelName model
              ++ "' from " ++ rpcUrl ++ ": " ++ exnToString e);
           Exit 0 ]
    /\ existsb isWriteFile run = false.
Proof.
  intros rpcUrl worldAddress run Hlen Hsozo Hmanifest Hex.
  destruct (forEachModel_aborts rpcUrl worldAddress models Hex fileHeader)
    as (before & model & after & e & Hm & Hb & Hf & Hr).
  assert (Hrun : run = [ConsoleError (fetchError (parseModelName model) rpcUrl e); Exit 0]).
  { unfold run, main. rewrite Hlen, Hsozo, Hmanifest. cbn [Nat.eqb negb].
    fold rpcUrl worldAddress. rewrite Hr. reflexivity. }
  exists before, model, after, e.
  split; [exact Hm | split; [exact Hb | split; [exact Hf | split; [exact Hrun|]]]].
  rewrite Hrun. reflexivity.
Qed.

End RunProperties.

Lemma failed_model_aborts_without_output_witness :
  let run := main sampleExecSync sampleJSON_parse sampleReadManifest (fun path => path)
                  sampleWriteFile sampleArgv in
  exists before model after e,
    sampleManifest = (before ++ model :: after)%list
    /\ Forall (fun m => forall e',
                  ~ failsWith sampleExecSync sampleJSON_parse "http://localhost:5050" "0x1" m e')
              before
    /\ failsWith sampleExecSync sampleJSON_parse "http://localhost:5050" "0x1" model e
    /\ run
       = [ ConsoleError
             ("error when fetching schema for model '" ++ parseModelName model
              ++ "' from " ++ "http://localhost:5050" ++ ": " ++ exnToString e);
           Exit 0 ]
    /\ existsb isWriteFile run = false.
Proof.
  apply (failed_model_aborts_without_output
           sampleExecSync sampleJSON_parse sampleReadManifest (fun path => path)
           sampleWriteFile sampleArgv "/usr/local/bin/sozo" sampleManifest);
    try reflexivity.
  apply Exists_cons_tl, Exists_cons_hd.
  eexists. left. reflexivity.
Defined.

Example sample_run_aborts :
  main sampleExecSync sampleJSON_parse sampleReadManifest (fun path => path)
       sampleWriteFile sampleArgv
  = [ ConsoleError "error when fetching schema for model 'Moves' from http://localhost:5050: Error: Command failed: sozo model schema Moves --rpc-url http://localhost:5050 --json --world 0x1";
      Exit 0 ].
Proof. reflexivity. Qed.

(** A run in which every model is translated writes the file once, at
    the end. *)
Example sample_run_writes :
  main sampleExecSync sampleJSON_parse sampleReadManifest (fun path => path)
       sampleWriteFile
       ["node"; "generateComponents.cjs"; "position.json"; "components.ts";
        "http://localhost:5050"; "0x1"]
  = [ WriteFile "components.ts"
        (fileHeader
         ++ modelBlock "Position"
              "{ player: RecsType.BigInt, vec: { x: RecsType.Number, y: RecsType.Number } }"
              {| types := ["contractaddress"; "u32"; "u32"];
                 customTypes := [VString "Vec2"] |}
         ++ fileFooter);
      ConsoleLog "Components file generated successfully: components.ts";
      Exit 0 ].
Proof. reflexivity. Qed.

Example wrong_argument_count :
  main sampleExecSync sampleJSON_parse sampleReadManifest (fun path => path)
       sampleWriteFile ["node"; "generateComponents.cjs"; "manifest.json"]
  = [ConsoleLog usage; Exit 1].
Proof. reflexivity. Qed.

(** * Further properties *)

(** ** The three outcomes of the transformation of a part *)






Lemma isNaN_parseInt_body (part : string) :
  firstIsDigit (unsignedBody part) = true ->
  isNaN (parseInt part) = bareHexPrefix (unsignedBody part).
Proof.
  intros E. rewrite isNaN_parseInt. fold (unsignedBody part).
  destruct (unsignedBody part) as [|c r]; [discriminate|].
  cbn [firstIsDigit] in E. unfold stripHexPrefix, bareHexPrefix.
  destruct r as [|x r'].
  - destruct (digit_radix10 _ E) as [d ->]. reflexivity.
  - destruct (Ascii.eqb c "0" && (Ascii.eqb x "x" || Ascii.eqb x "X")); cbn [andb].
    + destruct r' as [|d r'']; [reflexivity|].
      destruct (isHexDigit d) eqn:Hd.
      * destruct (hexDigit_radix16 _ Hd) as [v ->]. reflexivity.
      * now rewrite (not_hexDigit_radix16 _ Hd).
    + destruct (digit_radix10 _ E) as [d ->]. reflexivity.
Qed.

(** X2: white space and one sign in front of the digits do not count: a
    part such as ["-5abc"], whose text after the white space and the sign
    starts with a digit (and is not a bare [0x]), is a number for
    [parseInt] and is returned verbatim, however long it is. *)
Theorem signed_number_part_verbatim (part : string) :
  firstIsDigit (unsignedBody part) = true ->
  bareHexPrefix (unsignedBody part) = false ->
  transformPart part = part
  /\ forall model before after,
       partsOf model = (before ++ part :: after)%list ->
       parseModelName model
       = joinEmpty (map transformPart before) ++ part
         ++ joinEmpty (map transformPart after).
Proof.
  intros Hd Hb.
  assert (Ht : transformPart part = part).
  { unfold transformPart.
    now rewrite (isNaN_parseInt_body _ Hd), Hb. }
  split; [exact Ht|].
  intros model before after Hparts.
  now rewrite (parseModelName_at_part _ _ _ _ Hparts), Ht.
Qed.

Lemma signed_number_part_verbatim_witness :
  transformPart "-5abc" = "-5abc"
  /\ parseModelName {| name := "delta_-5abc" |} = "Delta-5abc".
Proof.
  destruct (signed_number_part_verbatim "-5abc" eq_refl eq_refl) as [H1 H2].
  split; [exact H1|].
  exact (H2 {| name := "delta_-5abc" |} ["delta"] [] eq_refl).
Defined.

(** ** What normalisation keeps of a name *)

Lemma lower_upper_char (c : ascii) : lowerChar (upperChar c) = lowerChar c.
Proof. by_cases_on_char c. Qed.

Lemma lower_lower_char (c : ascii) : lowerChar (lowerChar c) = lowerChar c.
Proof. by_cases_on_char c. Qed.

Lemma lowerChar_underscore (c : ascii) : Ascii.eqb (lowerChar c) "_" = Ascii.eqb c "_".
Proof. by_cases_on_char c. Qed.

Lemma toLowerCase_toUpperCase (s : string) : toLowerCase (toUpperCase s) = toLowerCase s.
Proof.
  induction s as [|c r IH]; [reflexivity|].
  cbn [toLowerCase toUpperCase mapString] in *. now rewrite lower_upper_char, IH.
Qed.

Lemma toLowerCase_idempotent (s : string) : toLowerCase (toLowerCase s) = toLowerCase s.
Proof.
  induction s as [|c r IH]; [reflexivity|].
  cbn [toLowerCase mapString] in *. now rewrite lower_lower_char, IH.
Qed.

Lemma toLowerCase_append (a b : string) :
  toLowerCase (a ++ b) = toLowerCase a ++ toLowerCase b.
Proof.
  induction a as [|c r IH]; [reflexivity|].
  cbn [toLowerCase mapString append] in *. now rewrite IH.
Qed.


Lemma occurs_underscore_toLowerCase (s : string) :
  occurs "_" (toLowerCase s) = occurs "_" s.
Proof.
  induction s as [|c r IH]; [reflexivity|].
  cbn [toLowerCase mapString occurs] in *. now rewrite lowerChar_underscore, IH.
Qed.

Lemma charAt0_slice1 (s : string) : charAt0 s ++ slice1 s = s.
Proof. destruct s; reflexivity. Qed.

(** The transformation of a part changes the case of letters and nothing
    else. *)
Lemma toLowerCase_transformPart (part : string) :
  toLowerCase (transformPart part) = toLowerCase part.
Proof.
  unfold transformPart.
  destruct (negb (isNaN (parseInt part))); [reflexivity|].
  destruct (_ || _).
  - apply toLowerCase_toUpperCase.
  - rewrite toLowerCase_append, toLowerCase_toUpperCase, toLowerCase_idempotent,
            <- toLowerCase_append. now rewrite charAt0_slice1.
Qed.

Lemma joinEmpty_cons (p : string) (rest : list string) :
  joinEmpty (p :: rest) = p ++ joinEmpty rest.
Proof. reflexivity. Qed.

Lemma toLowerCase_joinEmpty_transformPart (parts : list string) :
  toLowerCase (joinEmpty (map transformPart parts)) = toLowerCase (joinEmpty parts).
Proof.
  induction parts as [|p rest IH]; [reflexivity|].
  cbn [map]. rewrite !joinEmpty_cons.
  now rewrite !toLowerCase_append, toLowerCase_transformPart, IH.
Qed.

(** Joining the pieces of a split on [_] removes the underscores. *)
Lemma joinEmpty_splitFrom_underscore (s cur : string) :
  joinEmpty (splitFrom "_" 0 cur s) = cur ++ removeChar "_" s.
Proof.
  revert cur; induction s as [|c r IH]; intros cur.
  - cbn. now rewrite !append_empty_r.
  - cbn [removeChar]. destruct (Ascii.eqb c "_") eqn:E.
    + apply Ascii.eqb_eq in E. subst c.
      rewrite splitFrom_at_separator, joinEmpty_cons. now rewrite IH.
    + cbn [splitFrom]. rewrite (prefix_first_differs _ _ _ _ E).
      now rewrite IH, append_assoc.
Qed.

Lemma occurs_removeChar (c : ascii) (s : string) : occurs c (removeChar c s) = false.
Proof.
  induction s as [|d r IH]; [reflexivity|].
  cbn [removeChar]. destruct (Ascii.eqb d c) eqn:E; [exact IH|].
  cbn [occurs]. now rewrite E, IH.
Qed.

Lemma toLowerCase_parseModelName (model : Model) :
  toLowerCase (parseModelName model) = toLowerCase (removeChar "_" (lastSegment model)).
Proof.
  unfold parseModelName. rewrite toLowerCase_joinEmpty_transformPart.
  unfold split at 1. now rewrite joinEmpty_splitFrom_underscore.
Qed.


(** X4: no underscore is left in a normalised name. *)
Theorem normalised_name_has_no_underscore (model : Model) :
  occurs "_" (parseModelName model) = false.
Proof.
  rewrite <- occurs_underscore_toLowerCase, toLowerCase_parseModelName,
          occurs_underscore_toLowerCase.
  apply occurs_removeChar.
Qed.

(** ** Namespaces *)

Lemma splitFrom_nonempty (sep : string) (s : string) :
  forall skip cur, splitFrom sep skip cur s <> [].
Proof.
  induction s as [|c r IH]; intros skip cur; cbn [splitFrom]; [discriminate|].
  destruct skip; [|apply IH].
  destruct (prefix sep (String c r)); [discriminate | apply IH].
Qed.

Lemma last_cons_nonempty {A} (x d : A) (l : list A) : l <> [] -> last (x :: l) d = last l d.
Proof. destruct l; [congruence | reflexivity]. Qed.

Lemma prefix_one_char (c d : ascii) (r : string) :
  prefix (String c "") (String d r) = Ascii.eqb d c.
Proof.
  cbn [prefix]. destruct (ascii_dec c d) as [<-|N].
  - rewrite Ascii.eqb_refl. now destruct r.
  - destruct (Ascii.eqb d c) eqn:E; [|reflexivity].
    apply Ascii.eqb_eq in E. congruence.
Qed.

Lemma prefix_colons (c : ascii) (rest : string) :
  prefix "::" (String c rest)
  = Ascii.eqb c ":" && match rest with
                       | String d _ => Ascii.eqb d ":"
                       | EmptyString => false
                       end.
Proof.
  change (prefix "::" (String c rest))
    with (if ascii_dec ":" c then prefix ":" rest else false).
  destruct (ascii_dec ":" c) as [<-|N].
  - destruct rest as [|d r]; [reflexivity | apply prefix_one_char].
  - destruct (Ascii.eqb c ":") eqn:E; [|reflexivity].
    apply Ascii.eqb_eq in E. congruence.
Qed.

(** The last piece of a split on [::] is the text behind the last [::],
    when the text in front does not end with a colon. *)
Lemma last_splitFrom_colons (seg : string) :
  occurs ":" seg = false ->
  forall n ns, (String.length ns <= n)%nat -> endsWith ":" ns = false ->
  forall cur, last (splitFrom "::" 0 cur (ns ++ "::" ++ seg)) "" = seg.
Proof.
  intros Hseg. induction n as [n IH] using (well_founded_induction Wf_nat.lt_wf).
  intros ns Hlen Hend cur. destruct ns as [|c r].
  - change ("" ++ "::" ++ seg) with (String ":" (String ":" seg)).
    cbn [splitFrom]. rewrite prefix_colons. cbn [Ascii.eqb Bool.eqb andb String.length Nat.sub].
    rewrite last_cons_nonempty by apply splitFrom_nonempty.
    cbn [splitFrom]. now rewrite splitFrom_absent.
  - change (String c r ++ "::" ++ seg) with (String c (r ++ "::" ++ seg)).
    cbn [splitFrom]. rewrite prefix_colons.
    cbn [String.length] in Hlen.
    destruct (Ascii.eqb c ":") eqn:Ec; cbn [andb].
    + destruct r as [|d r'].
      * apply Ascii.eqb_eq in Ec. subst c. discriminate Hend.
      * change (String d r' ++ "::" ++ seg) with (String d (r' ++ "::" ++ seg)).
        destruct (Ascii.eqb d ":") eqn:Ed.
        -- cbn [String.length Nat.sub].
           rewrite last_cons_nonempty by apply splitFrom_nonempty.
           cbn [splitFrom].
           assert (Hr' : endsWith ":" r' = false).
           { destruct r' as [|e r'']; [reflexivity|]. exact Hend. }
           cbn [String.length] in Hlen.
           apply (IH (String.length r')); [ | apply Nat.le_refl | exact Hr'].
           apply Nat.lt_le_trans with (S (S (String.length r'))); [|exact Hlen].
           apply Nat.lt_lt_succ_r, Nat.lt_succ_diag_r.
        -- change (String d (r' ++ "::" ++ seg)) with (String d r' ++ "::" ++ seg).
           apply (IH (String.length (String d r'))); [ | apply Nat.le_refl | exact Hend].
           exact Hlen.
    + assert (Hr : endsWith ":" r = false).
      { destruct r as [|d r']; [reflexivity | exact Hend]. }
      apply (IH (String.length r)); [exact Hlen | apply Nat.le_refl | exact Hr].
Qed.

(** X5: the namespace is discarded: a name [ns::seg], where [seg] holds
    no colon and [ns] does not end with one, is normalised as [seg]
    alone is, whatever [ns] holds. *)
Theorem namespace_is_discarded (ns seg : string) :
  endsWith ":" ns = false ->
  occurs ":" seg = false ->
  lastSegment {| name := ns ++ "::" ++ seg |} = seg
  /\ parseModelName {| name := ns ++ "::" ++ seg |} = parseModelName {| name := seg |}.
Proof.
  intros Hns Hseg.
  assert (H : lastSegment {| name := ns ++ "::" ++ seg |} = seg).
  { unfold lastSegment, pop, split. cbn [name].
    now apply (last_splitFrom_colons seg Hseg (String.length ns) ns). }
  split; [exact H|].
  unfold parseModelName. fold (lastSegment {| name := ns ++ "::" ++ seg |}).
  rewrite H. cbn [name]. now rewrite (split_absent ":" ":" seg Hseg).
Qed.

Lemma namespace_is_discarded_witness :
  parseModelName {| name := "dojo::examples" ++ "::" ++ "player_health" |}
  = parseModelName {| name := "player_health" |}.
Proof.
  exact (proj2 (namespace_is_discarded "dojo::examples" "player_health" eq_refl eq_refl)).
Defined.

(** ** The translation as a pure function *)

Lemma mapM_returns {A B} (f : A -> M B) (g : A -> B)
    (dt : A -> list string) (dc : A -> list value) (l : list A) :
  Forall (fun x => forall acc,
              f x acc = Return (g x) {| types := (types acc ++ dt x)%list;
                                        customTypes := (customTypes acc ++ dc x)%list |}) l ->
  forall acc,
    mapM f l acc = Return (map g l)
                     {| types := (types acc ++ flat_map dt l)%list;
                        customTypes := (customTypes acc ++ flat_map dc l)%list |}.
Proof.
  induction 1 as [|x rest Hx Hrest IH]; intros acc.
  - cbn. unfold ret. rewrite !app_nil_r. now destruct acc.
  - cbn [mapM]. unfold bind at 1. rewrite Hx.
    unfold bind at 1. rewrite IH. unfold ret. cbn [types customTypes flat_map map].
    now rewrite !app_assoc.
Qed.

Lemma translation_returns (schema : Schema) :
  translatable schema = true ->
  forall acc,
    parseModelSchemaToRecsImpl schema acc
    = Return (expressionOf schema) (afterNode acc schema).
Proof.
  unfold afterNode.
  induction schema as [type st | type n children IH | type n | type elems IH]
    using Schema_nested_ind;
    cbn [translatable typesOrder customOrder expressionOf parseModelSchemaToRecsImpl];
    intros Ht acc; by_kind type;
    try discriminate Ht; try (leaf_returns acc).
  - cbn [content_name parseSchemaStructWith].
    unfold bind at 1. cbn [push_customTypes].
    rewrite forallb_forall in Ht. rewrite Forall_forall in IH.
    unfold bind.
    rewrite (mapM_returns _
               (fun member =>
                  match member with
                  | MkMember name member_type =>
                      name ++ ": " ++ toString (expressionOf member_type)
                  end)
               (fun member => typesOrder (member_schema member))
               (fun member => customOrder (member_schema member))).
    + unfold ret. cbn [types customTypes]. now rewrite <- app_assoc.
    + apply Forall_forall. intros [mn mt] Hin acc'.
      pose proof (IH _ Hin (Ht _ Hin) acc') as Hv. cbn [member_schema] in Hv.
      unfold bind. now rewrite Hv.
  - cbn [parseSchemaTupleWith].
    rewrite forallb_forall in Ht. rewrite Forall_forall in IH.
    unfold bind.
    rewrite (mapM_returns _ expressionOf typesOrder customOrder).
    + unfold ret. now rewrite map_map.
    + apply Forall_forall. intros e Hin acc'. exact (IH _ Hin (Ht _ Hin) acc').
Qed.

(** X6: the recursive translation is a pure function of the node plus
    appends: when every field it reads is there, it returns the type
    expression of the node and leaves each accumulator extended by the
    pre-order traversal; otherwise it throws a TypeError, and nothing
    else. *)
Theorem translation_returns_or_type_error (schema : Schema) (acc : Acc) :
  if translatable schema
  then parseModelSchemaToRecsImpl schema acc
       = Return (expressionOf schema) (afterNode acc schema)
  else exists message,
         parseModelSchemaToRecsImpl schema acc = Throw (TypeError message).
Proof.
  destruct (translatable schema) eqn:E.
  - now apply translation_returns.
  - now apply untranslatable_throws.
Qed.

(** The translation of a root, case by case. *)
Lemma root_outcomes (schema : Schema) (acc : Acc) :
  if negb (schema_type schema =? "struct") then
    parseModelSchemaToRecs schema acc = Throw UnsupportedRootSchema
  else if translatable schema then
    parseModelSchemaToRecs schema acc
    = Return (expressionOf schema)
        {| types := (types acc ++ typesOrder schema)%list;
           customTypes := (customTypes acc ++ tl (customOrder schema))%list |}
  else
    exists message, parseModelSchemaToRecs schema acc = Throw (TypeError message).
Proof.
  destruct schema as [type content]. unfold parseModelSchemaToRecs.
  cbn [schema_type schema_content].
  destruct (type =? "struct") eqn:Es; cbn [negb]; [|reflexivity].
  apply String.eqb_eq in Es. subst type.
  destruct (translatable (MkSchema "struct" content)) eqn:Et.
  - destruct content as [st | n children | n | elems];
      cbn [translatable String.eqb Ascii.eqb Bool.eqb] in Et; try discriminate Et.
    cbn [typesOrder customOrder expressionOf String.eqb Ascii.eqb Bool.eqb tl].
    unfold parseSchemaStruct, parseSchemaStructWith, bind.
    rewrite (mapM_returns _
               (fun member =>
                  match member with
                  | MkMember name member_type =>
                      name ++ ": " ++ toString (expressionOf member_type)
                  end)
               (fun member => typesOrder (member_schema member))
               (fun member => customOrder (member_schema member))); [reflexivity|].
    rewrite forallb_forall in Et. apply Forall_forall. intros [mn mt] Hin acc'.
    pose proof (translation_returns mt (Et _ Hin) acc') as Hv.
    unfold afterNode in Hv. unfold bind. now rewrite Hv.
  - destruct (untranslatable_throws _ Et acc) as [message Hm].
    cbn [parseModelSchemaToRecsImpl String.eqb Ascii.eqb Bool.eqb] in Hm.
    unfold bind in Hm. cbn [push_customTypes] in Hm.
    destruct content as [st | n children | n | elems];
      try (eexists; reflexivity).
    cbn [translatable String.eqb Ascii.eqb Bool.eqb] in Et.
    unfold parseSchemaStruct.
    pose proof (framed_parseModelSchemaToRecsImpl
                  (MkSchema "struct" (ContentStruct n children)) acc) as Hf.
    destruct (parseSchemaStructWith parseModelSchemaToRecsImpl
                (ContentStruct n children) acc) as [v acc'|e] eqn:Er.
    + exfalso.
      assert (Hs : framed (parseSchemaStructWith parseModelSchemaToRecsImpl
                             (ContentStruct n children))).
      { cbn [parseSchemaStructWith].
        apply framed_bind; [|intros strs; apply framed_ret].
        apply framed_mapM, Forall_forall. intros [mn mt] _.
        apply framed_bind;
          [apply framed_parseModelSchemaToRecsImpl | intros v0; apply framed_ret]. }
      rewrite (Hs acc) in Er. rewrite Hs in Hm.
      destruct (parseSchemaStructWith parseModelSchemaToRecsImpl
                  (ContentStruct n children) emptyAcc); discriminate.
    + destruct (typeErrorsOnly_struct (ContentStruct n children)
                  typeErrorsOnly_parseModelSchemaToRecsImpl acc e Er) as [message' ->].
      now exists message'.
Qed.

(** X7: the three outcomes of the translation of a root.  A root that
    is not tagged [struct] is refused; a struct root of which every field
    can be read gives its type expression, and the accumulators receive
    the pre-order traversal less its first name, the name of the root,
    which is recorded nowhere; any other struct root throws a
    TypeError. *)
Theorem root_translation_outcomes (schema : Schema) (acc : Acc) :
  if negb (schema_type schema =? "struct") then
    parseModelSchemaToRecs schema acc = Throw UnsupportedRootSchema
  else if translatable schema then
    parseModelSchemaToRecs schema acc
    = Return (expressionOf schema)
        {| types := (types acc ++ typesOrder schema)%list;
           customTypes := (customTypes acc ++ tl (customOrder schema))%list |}
  else
    exists message, parseModelSchemaToRecs schema acc = Throw (TypeError message).
Proof. apply root_outcomes. Qed.

(** ** The entries of [types] *)

Lemma Forall_flat_map {A B} (P : B -> Prop) (g : A -> list B) (l : list A) :
  Forall (fun x => Forall P (g x)) l -> Forall P (flat_map g l).
Proof.
  induction 1 as [|x rest Hx Hrest IH]; cbn [flat_map]; [constructor|].
  apply Forall_app. now split.
Qed.

Lemma typesOrder_lower_case (schema : Schema) :
  Forall (fun s => noUpper s = true) (typesOrder schema).
Proof.
  induction schema as [type st | type n children IH | type n | type elems IH]
    using Schema_nested_ind;
    cbn [typesOrder]; by_kind type; try constructor; try constructor;
    try reflexivity.
  - unfold noUpper. now rewrite toLowerCase_no_upper.
  - apply Forall_flat_map. exact IH.
  - apply Forall_flat_map. exact IH.
Qed.

(** X8: every entry the translator appends to [types] is in lower case:
    if the entries held before a translation have no upper-case letter,
    neither have the entries held after it; so the [types] of a root
    translated from empty accumulators never holds an upper-case
    letter. *)
Theorem types_entries_are_lower_case (schema : Schema) :
  (forall acc v acc',
      Forall (fun s => noUpper s = true) (types acc) ->
      parseModelSchemaToRecsImpl schema acc = Return v acc' ->
      Forall (fun s => noUpper s = true) (types acc'))
  /\ (forall v acc',
        parseModelSchemaToRecs schema emptyAcc = Return v acc' ->
        Forall (fun s => noUpper s = true) (types acc')).
Proof.
  split.
  - intros acc v acc' Hacc Hr.
    assert (Ht : translatable schema = true).
    { apply (translatable_iff_returns schema acc). eauto. }
    rewrite (translation_returns schema Ht acc) in Hr.
    inversion Hr; subst. cbn [afterNode types].
    apply Forall_app. split; [exact Hacc | apply typesOrder_lower_case].
  - intros v acc' Hr.
    pose proof (root_outcomes schema emptyAcc) as Ho.
    destruct (negb (schema_type schema =? "struct")); [congruence|].
    destruct (translatable schema).
    + rewrite Ho in Hr. inversion Hr; subst. cbn [types emptyAcc app].
      apply typesOrder_lower_case.
    + destruct Ho as [message Hm]. congruence.
Qed.

Lemma types_entries_are_lower_case_witness :
  Forall (fun s => noUpper s = true) ["contractaddress"; "u32"; "u32"].
Proof.
  exact (proj2 (types_entries_are_lower_case positionSchema)
               (VString "{ player: RecsType.BigInt, vec: { x: RecsType.Number, y: RecsType.Number } }")
               {| types := ["contractaddress"; "u32"; "u32"];
                  customTypes := [VString "Vec2"] |}
               eq_refl).
Defined.

(** ** Names of structs and enums *)

Lemma map_map_Forall {A B C} (k : A -> B) (g : B -> C) (h : A -> C) (l : list A) :
  Forall (fun x => g (k x) = h x) l -> map g (map k l) = map h l.
Proof. induction 1 as [|x rest Hx _ IH]; cbn [map]; [reflexivity | now rewrite Hx, IH]. Qed.

Lemma flat_map_map_Forall {A B C} (k : A -> B) (g : B -> list C) (h : A -> list C)
    (l : list A) :
  Forall (fun x => g (k x) = h x) l -> flat_map g (map k l) = flat_map h l.
Proof.
  induction 1 as [|x rest Hx _ IH]; cbn [map flat_map]; [reflexivity | now rewrite Hx, IH].
Qed.

Lemma forallb_map_Forall {A B} (k : A -> B) (g : B -> bool) (h : A -> bool) (l : list A) :
  Forall (fun x => g (k x) = h x) l -> forallb g (map k l) = forallb h l.
Proof.
  induction 1 as [|x rest Hx _ IH]; cbn [map forallb]; [reflexivity | now rewrite Hx, IH].
Qed.

Lemma renameTypes_invariants (f : string -> string) (schema : Schema) :
  expressionOf (renameTypes f schema) = expressionOf schema
  /\ typesOrder (renameTypes f schema) = typesOrder schema
  /\ translatable (renameTypes f schema) = translatable schema.
Proof.
  induction schema as [type st | type n children IH | type n | type elems IH]
    using Schema_nested_ind;
    cbn [renameTypes expressionOf typesOrder translatable];
    by_kind type; try (repeat split; reflexivity).
  - repeat split.
    + do 4 f_equal. apply map_map_Forall.
      eapply Forall_impl; [|exact IH]. intros [mn mt] [He _]. cbn in *. now rewrite He.
    + apply flat_map_map_Forall.
      eapply Forall_impl; [|exact IH]. intros [mn mt] [_ [Ht _]]. exact Ht.
    + apply forallb_map_Forall.
      eapply Forall_impl; [|exact IH]. intros [mn mt] [_ [_ Ht]]. exact Ht.
  - repeat split.
    + do 4 f_equal. apply map_map_Forall.
      eapply Forall_impl; [|exact IH]. intros e [He _]. cbn. now rewrite He.
    + apply flat_map_map_Forall.
      eapply Forall_impl; [|exact IH]. intros e [_ [Ht _]]. exact Ht.
    + apply forallb_map_Forall.
      eapply Forall_impl; [|exact IH]. intros e [_ [_ Ht]]. exact Ht.
Qed.

(** X9: the names of structs and enums go to [customTypes] and nowhere
    else: renaming them throughout a document changes neither whether
    the translation returns, nor the type expression returned, nor the
    entries appended to [types]. *)
Theorem type_names_do_not_reach_the_expression (f : string -> string)
    (schema : Schema) (acc : Acc) :
  translatable (renameTypes f schema) = translatable schema
  /\ (translatable schema = true ->
      exists custom custom',
        parseModelSchemaToRecsImpl schema acc
        = Return (expressionOf schema)
            {| types := (types acc ++ typesOrder schema)%list; customTypes := custom |}
        /\ parseModelSchemaToRecsImpl (renameTypes f schema) acc
           = Return (expressionOf schema)
               {| types := (types acc ++ typesOrder schema)%list; customTypes := custom' |}).
Proof.
  destruct (renameTypes_invariants f schema) as [He [Ho Ht]].
  split; [exact Ht|]. intros Hs.
  exists (customTypes acc ++ customOrder schema)%list,
         (customTypes acc ++ customOrder (renameTypes f schema))%list.
  split.
  - now rewrite (translation_returns schema Hs acc).
  - rewrite (translation_returns (renameTypes f schema)) by congruence.
    unfold afterNode. now rewrite He, Ho.
Qed.

Lemma type_names_do_not_reach_the_expression_witness :
  exists custom custom',
    parseModelSchemaToRecsImpl positionSchema emptyAcc
    = Return (expressionOf positionSchema)
        {| types := ([] ++ typesOrder positionSchema)%list; customTypes := custom |}
    /\ parseModelSchemaToRecsImpl (renameTypes toUpperCase positionSchema) emptyAcc
       = Return (expressionOf positionSchema)
           {| types := ([] ++ typesOrder positionSchema)%list; customTypes := custom' |}.
Proof.
  exact (proj2 (type_names_do_not_reach_the_expression toUpperCase positionSchema emptyAcc)
               eq_refl).
Defined.

(** ** Runs that write the file *)

Section RunOutcomes.

Variable execSync : string -> exn + string.
Variable JSON_parse : string -> exn + Schema.
Variable readManifest : string -> exn + list Model.
Variable path_resolve : string -> string.
Variable writeFile : string -> string -> option string.

Lemma tryModel_block (rpcUrl worldAddress : string) (model : Model) (block : string) :
  tryModel execSync JSON_parse rpcUrl worldAddress (parseModelName model) = inr block
  <-> blockFor execSync JSON_parse rpcUrl worldAddress model block.
Proof.
  unfold tryModel, blockFor. split.
  - destruct (execSync _) as [e1|output]; [discriminate|].
    destruct (JSON_parse output) as [e2|schema] eqn:Ej; [discriminate|].
    destruct (parseModelSchemaToRecs schema emptyAcc) as [v acc|e3] eqn:Et; [|discriminate].
    intros H. exists output, schema, v, acc.
    split; [reflexivity | split; [exact Ej | split; [exact Et | congruence]]].
  - intros (output & schema & v & acc & -> & -> & -> & ->). reflexivity.
Qed.

Lemma tryModel_total (rpcUrl worldAddress : string) (model : Model) :
  (exists block, blockFor execSync JSON_parse rpcUrl worldAddress model block)
  \/ (exists e, failsWith execSync JSON_parse rpcUrl worldAddress model e).
Proof.
  destruct (tryModel execSync JSON_parse rpcUrl worldAddress (parseModelName model))
    as [e|block] eqn:E.
  - right. exists e. now apply tryModel_fails.
  - left. exists block. now apply tryModel_block.
Qed.


(** The loop over models that are all translated appends their blocks in
    the order of the manifest. *)
Lemma forEachModel_appends (rpcUrl worldAddress : string)
    (models : list Model) (blocks : list string) :
  Forall2 (blockFor execSync JSON_parse rpcUrl worldAddress) models blocks ->
  forall fileContent,
    forEachModel execSync JSON_parse rpcUrl worldAddress models fileContent
    = inr (fileContent ++ joinEmpty blocks).
Proof.
  induction 1 as [|model block models blocks Hb _ IH]; intros fileContent.
  - cbn. now rewrite append_empty_r.
  - cbn [forEachModel]. apply tryModel_block in Hb. rewrite Hb.
    rewrite IH, joinEmpty_cons, append_assoc. reflexivity.
Qed.


(** X10: a run in which every model of the manifest is fetched and
    translated writes the file once: the header, the blocks of the models
    in the order of the manifest, the footer; it then reports the outcome
    of the write and ends with status 0.  With an empty manifest the file
    holds the header and the footer. *)
Theorem complete_run_writes_blocks_in_manifest_order (argv : list string) (found : string)
    (models : list Model) (blocks : list string) :
  let rpcUrl := nth 4 argv "" in
  let worldAddress := nth 5 argv "" in
  let jsFilePath := path_resolve (nth 3 argv "") in
  let content := fileHeader ++ joinEmpty blocks ++ fileFooter in
  List.length argv = 6%nat ->
  execSync "command -v sozo 2>/dev/null" = inr found ->
  readManifest (path_resolve (nth 2 argv "")) = inr models ->
  Forall2 (blockFor execSync JSON_parse rpcUrl worldAddress) models blocks ->
  main execSync JSON_parse readManifest path_resolve writeFile argv
  = [ WriteFile jsFilePath content;
      match writeFile jsFilePath content with
      | Some err => ConsoleError ("error writing file: " ++ err)
      | None => ConsoleLog ("Components file generated successfully: " ++ jsFilePath)
      end;
      Exit 0 ].
Proof.
  intros rpcUrl worldAddress jsFilePath content Hlen Hsozo Hmanifest Hblocks.
  unfold main. rewrite Hlen, Hsozo, Hmanifest. cbn [Nat.eqb negb].
  fold rpcUrl worldAddress jsFilePath.
  rewrite (forEachModel_appends rpcUrl worldAddress models blocks Hblocks).
  rewrite append_assoc. reflexivity.
Qed.

End RunOutcomes.

Lemma complete_run_writes_blocks_in_manifest_order_witness :
  main sampleExecSync sampleJSON_parse sampleReadManifest (fun path => path) sampleWriteFile
       ["node"; "generateComponents.cjs"; "position.json"; "components.ts";
        "http://localhost:5050"; "0x1"]
  = [ WriteFile "components.ts"
        (fileHeader
         ++ joinEmpty
              [modelBlock "Position"
                 "{ player: RecsType.BigInt, vec: { x: RecsType.Number, y: RecsType.Number } }"
                 {| types := ["contractaddress"; "u32"; "u32"];
                    customTypes := [VString "Vec2"] |}]
         ++ fileFooter);
      ConsoleLog "Components file generated successfully: components.ts";
      Exit 0 ].
Proof.
  apply (complete_run_writes_blocks_in_manifest_order
           sampleExecSync sampleJSON_parse sampleReadManifest (fun path => path)
           sampleWriteFile
           ["node"; "generateComponents.cjs"; "position.json"; "components.ts";
            "http://localhost:5050"; "0x1"]
           "/usr/local/bin/sozo" [{| name := "dojo_examples::position" |}]);
    try reflexivity.
  constructor; [|constructor].
  exists "<schema of Position>", positionSchema,
         (VString "{ player: RecsType.BigInt, vec: { x: RecsType.Number, y: RecsType.Number } }"),
         {| types := ["contractaddress"; "u32"; "u32"]; customTypes := [VString "Vec2"] |}.
  repeat split; reflexivity.
Defined.

(** ** When the file is written, and how a run ends *)

Section RunClassification.

Variable execSync : string -> exn + string.
Variable JSON_parse : string -> exn + Schema.
Variable readManifest : string -> exn + list Model.
Variable path_resolve : string -> string.
Variable writeFile : string -> string -> option string.




End RunClassification.

(** ** The transformation of a part, without parseInt *)




(** ** Tuples of primitives *)

Lemma scalarTarget_defined (st : string) : joinElement (scalarTarget st) = toString (scalarTarget st).
Proof.
  unfold scalarTarget, nullish.
  destruct (cairoToRecsType_get (toLowerCase st)); reflexivity.
Qed.

Lemma tupleOfPrimitives_translatable (sts : list string) :
  translatable (tupleOfPrimitives sts) = true.
Proof.
  unfold tupleOfPrimitives. cbn [translatable String.eqb Ascii.eqb Bool.eqb].
  induction sts as [|st rest IH]; [reflexivity | exact IH].
Qed.

(** X14: a tuple of primitives is translated to the bracketed list of
    the targets of its scalar types, in their order; the lower-cased
    scalar type names are appended to [types] in the same order and
    [customTypes] is left as it was. *)
Theorem tuple_of_primitives_translation (sts : list string) (acc : Acc) :
  parseModelSchemaToRecsImpl (tupleOfPrimitives sts) acc
  = Return (VString ("[ " ++ join ", " (map (fun st => toString (scalarTarget st)) sts) ++ " ]"))
      {| types := (types acc ++ map toLowerCase sts)%list;
         customTypes := customTypes acc |}.
Proof.
  rewrite (translation_returns _ (tupleOfPrimitives_translatable sts)).
  unfold afterNode, tupleOfPrimitives.
  cbn [expressionOf typesOrder customOrder String.eqb Ascii.eqb Bool.eqb].
  assert (He : map (fun elem => joinElement (expressionOf elem)) (map primitive sts)
               = map (fun st => toString (scalarTarget st)) sts).
  { induction sts as [|st rest IH]; [reflexivity|].
    cbn [map]. rewrite IH. f_equal.
    unfold primitive. cbn [expressionOf String.eqb Ascii.eqb Bool.eqb].
    apply scalarTarget_defined. }
  assert (Ht : flat_map typesOrder (map primitive sts) = map toLowerCase sts).
  { clear. induction sts as [|st rest IH]; [reflexivity|].
    cbn [map flat_map]. rewrite IH. reflexivity. }
  assert (Hc : flat_map customOrder (map primitive sts) = []).
  { clear. induction sts as [|st rest IH]; [reflexivity|].
    cbn [map flat_map]. rewrite IH. reflexivity. }
  now rewrite He, Ht, Hc, app_nil_r.
Qed.

Example tuple_of_two_primitives :
  parseModelSchemaToRecsImpl (tupleOfPrimitives ["u8"; "Felt252"]) emptyAcc
  = Return (VString "[ RecsType.Number, RecsType.BigInt ]")
      {| types := ["u8"; "felt252"]; customTypes := [] |}.
Proof. reflexivity. Qed.

Example namespace_ending_with_colon :
  parseModelName {| name := "a:" ++ "::" ++ "seg_x" |} = ":segX"
  /\ parseModelName {| name := "seg_x" |} = "SEGX".
Proof. split; reflexivity. Qed.
